(** * GPS simulation of the fleet tracker: per-vehicle motion update

    A shallow embedding of [simulateGPSUpdate] and its helpers
    ([findClosestRoutePoint], [getNextRouteTarget], [simulateAllVehicles])
    and of the interval callback of [startGPSSimulation].

    JavaScript numbers are read as real numbers: arithmetic is exact,
    [Math.sqrt] is the real square root and [Math.atan2] the two-argument
    arctangent.  [Math.random], [new Date()] and the console are effects of
    a small state-and-exception monad [JS]; reading a property of
    [undefined] raises [TypeError] as the runtime does.

    The vehicle store is covered as well: the initial fleet
    ([createInitialVehicles] with [generateRandomPosition],
    [generateDestination] and [calculateDistance]), the actions on the
    list of vehicles, and the timer behind [startGPSSimulation] and
    [stopGPSSimulation]; so are the groups of the speed monitor and the
    conversion of routes for the map. *)

From Stdlib Require Import String.
From Stdlib Require Import Reals Lra Lia ZArith List Bool.
From Stdlib Require Import DecimalString Permutation Sorted.
Import ListNotations.
Open Scope R_scope.

(** ** Numbers and the [Math] object *)

Module Num.

Definition ltb (x y : R) : bool := if Rlt_dec x y then true else false.
Definition geb (x y : R) : bool := if Rle_dec y x then true else false.

(** [Math.trunc]: rounding toward zero. *)
Definition trunc (x : R) : Z :=
  if Rle_dec 0 x then Int_part x else (- Int_part (- x))%Z.

(** The [%] operator: the remainder has the sign of the dividend. *)
Definition rem (x y : R) : R := x - y * IZR (trunc (x / y)).

(** A distance that may still be the initial [Infinity]. *)
Inductive ext := Infinity | Finite (r : R).

Definition lt_ext (x : R) (m : ext) : bool :=
  match m with
  | Infinity => true
  | Finite r => ltb x r
  end.

End Num.

Infix "<?" := Num.ltb (at level 70, no associativity) : R_scope.
Infix ">=?" := Num.geb (at level 70, no associativity) : R_scope.
Infix "%%" := Num.rem (at level 40, left associativity) : R_scope.

Definition Math_max (x y : R) : R := Rmax x y.
Definition Math_min (x y : R) : R := Rmin x y.
Definition Math_sqrt (x : R) : R := sqrt x.
Definition Math_PI : R := PI.

(** [Math.pow(x, 2)]. *)
Definition Math_pow2 (x : R) : R := x ^ 2.

(** [Math.atan2(y, x)]; [Math.atan2(0, 0)] is [0]. *)
Definition Math_atan2 (y x : R) : R :=
  if Rlt_dec 0 x then atan (y / x)
  else if Rlt_dec x 0 then
    (if Rle_dec 0 y then atan (y / x) + PI else atan (y / x) - PI)
  else if Rlt_dec 0 y then PI / 2
  else if Rlt_dec y 0 then - (PI / 2)
  else 0.

(** ** Data model (the fields of [Vehicle] the simulation reads or writes) *)

Record Position := mkPosition { lat : R; lng : R }.

Record Destination := mkDestination {
  dest_lat : R;
  dest_lng : R;
  address : string
}.

Inductive VehicleStatus := on_time | warning | critical.

Record StatusHistoryEntry := mkEntry {
  timestamp : Z;
  entry_status : VehicleStatus;
  speed : R;
  entry_position : Position
}.

(** Optional and nullable fields are [option]s; [destination] may be
    missing at run time even though the type asks for it. *)
Record Vehicle := mkVehicle {
  id : string;
  driverName : string;
  position : Position;
  destination : option Destination;
  currentSpeed : R;
  heading : R;
  scheduledETA : option Z;
  cargoTemperature : option R;
  lastStopTime : option Z;
  status : VehicleStatus;
  statusHistory : option (list StatusHistoryEntry);
  route : option (list Position)
}.

(** The target returned by [getNextRouteTarget]. *)
Record Target := mkTarget { target_lat : R; target_lng : R; index : Z }.

(** ** Effects *)

(** What the simulation writes to the console, with the values it
    interpolates into the message. *)
Inductive LogEvent :=
| EnteringHighway (vehicleId : string) (newSpeed : R)
| SpeedViolation (vehicleId driver : string) (observedSpeed limit : R)
| FollowingRoute (vehicleId : string) (currentRouteIndex : Z)
                 (routeLength : nat) (targetIndex : Z) (newHeading : R)
| NoRoute (vehicleId : string) (routeLength : nat).

Inductive Exn := TypeError (reading : string).

(** The world outside the function: the successive results of
    [Math.random], how many were consumed, the wall clock in
    milliseconds, and the console output so far (oldest first). *)
Record World := mkWorld {
  draws : nat -> R;
  cursor : nat;
  clock : Z;
  console : list LogEvent
}.

Inductive Outcome (A : Type) :=
| Returned (a : A)
| Thrown (e : Exn).
Arguments Returned {A} a.
Arguments Thrown {A} e.

Definition JS (A : Type) : Type := World -> Outcome A * World.

Definition ret {A} (a : A) : JS A := fun w => (Returned a, w).

Definition bind {A B} (m : JS A) (k : A -> JS B) : JS B :=
  fun w =>
    match m w with
    | (Returned a, w') => k a w'
    | (Thrown e, w') => (Thrown e, w')
    end.

Definition throw {A} (e : Exn) : JS A := fun w => (Thrown e, w).

Notation "x <- m ;; k" := (bind m (fun x => k))
  (at level 61, m at next level, right associativity).
Notation "' p <- m ;; k" := (bind m (fun x => match x with p => k end))
  (at level 61, p pattern, m at next level, right associativity).
Notation "m ;;; k" := (bind m (fun _ => k))
  (at level 61, right associativity).

Definition Math_random : JS R :=
  fun w => (Returned (draws w (cursor w)),
            mkWorld (draws w) (S (cursor w)) (clock w) (console w)).

Definition new_Date : JS Z := fun w => (Returned (clock w), w).

Definition console_log (e : LogEvent) : JS unit :=
  fun w => (Returned tt,
            mkWorld (draws w) (cursor w) (clock w) (console w ++ [e])).

Definition console_warn (e : LogEvent) : JS unit := console_log e.

(** [vehicle.destination.lat] and [vehicle.destination.lng]. *)
Definition destination_lat (vehicle : Vehicle) : JS R :=
  match destination vehicle with
  | Some d => ret (dest_lat d)
  | None => throw (TypeError "lat")
  end.

Definition destination_lng (vehicle : Vehicle) : JS R :=
  match destination vehicle with
  | Some d => ret (dest_lng d)
  | None => throw (TypeError "lng")
  end.

(** [route[i]] followed by a property read: [undefined] out of range. *)
Definition at_index (points : list Position) (i : Z) : JS Position :=
  match (if (i <? 0)%Z then None else nth_error points (Z.to_nat i)) with
  | Some p => ret p
  | None => throw (TypeError "lat")
  end.

(** [route.length] as a number. *)
Definition length_of (points : list Position) : Z := Z.of_nat (length points).

(** [xs.slice(-n)]: the last [n] elements. *)
Definition slice_last {A} (n : nat) (xs : list A) : list A :=
  skipn (length xs - n) xs.

(** ** Route following *)

(** The flat-earth distance in metres, 111000 metres per degree, as both
    [findClosestRoutePoint] and the arrival check write it. *)
Definition flatEarthMetres (to_lat to_lng from_lat from_lng : R) : R :=
  Math_sqrt (Math_pow2 ((to_lat - from_lat) * 111000) +
             Math_pow2 ((to_lng - from_lng) * 111000)).

(** The body of the [forEach] of [findClosestRoutePoint], run over the
    points from [index] on; the pair is [(closestIndex, minDistance)]. *)
Fixpoint forEach_closest (position : Position) (points : list Position)
    (index : Z) (acc : Z * Num.ext) : Z * Num.ext :=
  match points with
  | [] => acc
  | point :: rest =>
      let distance :=
        flatEarthMetres (lat point) (lng point) (lat position) (lng position) in
      let acc' :=
        if Num.lt_ext distance (snd acc) then (index, Num.Finite distance)
        else acc in
      forEach_closest position rest (index + 1)%Z acc'
  end.

Definition findClosestRoutePoint (position : Position)
    (route : option (list Position)) : Z :=
  match route with
  | None => 0%Z
  | Some [] => 0%Z
  | Some points => fst (forEach_closest position points 0%Z (0%Z, Num.Infinity))
  end.

Definition getNextRouteTarget (vehicle : Vehicle) (currentRouteIndex : Z)
    : JS (option Target) :=
  match route vehicle with
  | None | Some [] =>
      dlat <- destination_lat vehicle ;;
      dlng <- destination_lng vehicle ;;
      ret (Some (mkTarget dlat dlng (-1)))
  | Some points =>
      let targetIndex := Z.min (currentRouteIndex + 1) (length_of points - 1) in
      if (targetIndex >=? length_of points)%Z then
        dlat <- destination_lat vehicle ;;
        dlng <- destination_lng vehicle ;;
        ret (Some (mkTarget dlat dlng (length_of points)))
      else
        p <- at_index points targetIndex ;;
        ret (Some (mkTarget (lat p) (lng p) targetIndex))
  end.

(** ** The per-vehicle update *)

Definition SPEED_LIMIT : R := 100.

(** The distance travelled in one update, in kilometres. *)
Definition distanceKm (vehicle : Vehicle) : R :=
  (currentSpeed vehicle / 3600) * 2.

(** The random speed adjustments and the clamp to realistic bounds:
    the speed as it reaches the speed-limit check. *)
Definition rawSpeed (vehicle : Vehicle) : JS R :=
  r <- Math_random ;;
  let speedVariation := (r - 0.5) * 2 * 0.05 in
  let newSpeed := currentSpeed vehicle * (1 + speedVariation) in
  r <- Math_random ;;
  let newSpeed :=
    if r <? 0.05 then Math_max 10 (newSpeed * 0.5) else newSpeed in
  r <- Math_random ;;
  let newSpeed :=
    if r <? 0.03 then Math_min 60 (newSpeed * 1.2) else newSpeed in
  r <- Math_random ;;
  newSpeed <-
    (if r <? 0.02 then
       r <- Math_random ;;
       let newSpeed := 85 + r * 13 in
       console_log (EnteringHighway (id vehicle) newSpeed) ;;;
       ret newSpeed
     else ret newSpeed) ;;
  ret (Math_max 5 (Math_min 98 newSpeed)).

(** The speed-limit check: cap at [SPEED_LIMIT] and warn if exceeded. *)
Definition speedLimitCheck (vehicle : Vehicle) (newSpeed : R) : JS R :=
  if SPEED_LIMIT <? newSpeed then
    console_warn
      (SpeedViolation (id vehicle) (driverName vehicle) newSpeed SPEED_LIMIT) ;;;
    ret SPEED_LIMIT
  else ret newSpeed.

(** Bearing in degrees from the position towards a point. *)
Definition bearingTo (position : Position) (to_lat to_lng : R) : R :=
  let latDiff := to_lat - lat position in
  let lngDiff := to_lng - lng position in
  (Math_atan2 lngDiff latDiff * 180) / Math_PI.

(** [vehicle.route?.length || 0]. *)
Definition routeLength (vehicle : Vehicle) : nat :=
  match route vehicle with
  | Some points => length points
  | None => 0%nat
  end.

(** [vehicle.route && vehicle.route.length > 2]. *)
Definition hasRoute (vehicle : Vehicle) : bool :=
  match route vehicle with
  | Some points => (2 <? length_of points)%Z
  | None => false
  end.

(** The arrival rules: the final position and speed, given the distance
    from the new position to the destination. *)
Definition finalPosition (vehicle : Vehicle) (distanceToDestination : R)
    (newPosition : Position) : JS Position :=
  if distanceToDestination <? 100 then
    dlat <- destination_lat vehicle ;;
    dlng <- destination_lng vehicle ;;
    ret (mkPosition dlat dlng)
  else ret newPosition.

Definition arrivalSpeed (distanceToDestination newSpeed : R) : R :=
  let newSpeed :=
    if distanceToDestination <? 500 then Math_min newSpeed 20 else newSpeed in
  if distanceToDestination <? 100 then 0 else newSpeed.

(** Truthiness of a nullable timestamp. *)
Definition truthy {A} (x : option A) : bool :=
  match x with Some _ => true | None => false end.

(** [lastStopTime] after the update. *)
Definition updateLastStopTime (now : Z) (newSpeed : R) (lastStopTime : option Z)
    : option Z :=
  if (newSpeed <? 5) && negb (truthy lastStopTime) then Some now
  else if newSpeed >=? 5 then None
  else lastStopTime.

(** [vehicle.statusHistory || []]. *)
Definition existingHistory (vehicle : Vehicle) : list StatusHistoryEntry :=
  match statusHistory vehicle with
  | Some h => h
  | None => []
  end.

Definition newHistoryEntry (now : Z) (vehicle : Vehicle) : StatusHistoryEntry :=
  mkEntry now (status vehicle) (currentSpeed vehicle) (position vehicle).

Definition updatedHistory (now : Z) (vehicle : Vehicle)
    : list StatusHistoryEntry :=
  slice_last 450 (existingHistory vehicle ++ [newHistoryEntry now vehicle]).

Definition set_status (s : VehicleStatus) (v : Vehicle) : Vehicle :=
  mkVehicle (id v) (driverName v) (position v) (destination v)
    (currentSpeed v) (heading v) (scheduledETA v) (cargoTemperature v)
    (lastStopTime v) s (statusHistory v) (route v).

Definition set_cargoTemperature (t : option R) (v : Vehicle) : Vehicle :=
  mkVehicle (id v) (driverName v) (position v) (destination v)
    (currentSpeed v) (heading v) (scheduledETA v) t
    (lastStopTime v) (status v) (statusHistory v) (route v).

Section Simulation.

(** [calculateNewPosition] and [calculateVehicleStatus] belong to
    [utils/statusCalculations], which is not among the sources: they are
    parameters.  Both are taken to be pure; the second may read the
    clock, and only the [status] of its result is used. *)
Variable calculateNewPosition : Position -> R -> R -> Position.
Variable calculateVehicleStatus : Z -> Vehicle -> VehicleStatus.

(** The choice of a target and the move towards it: the new position
    and the heading before normalisation. *)
Definition moveTowardTarget (vehicle : Vehicle) (distanceKm : R)
    : JS (Position * R) :=
  if hasRoute vehicle then
    let currentRouteIndex :=
      findClosestRoutePoint (position vehicle) (route vehicle) in
    target <- getNextRouteTarget vehicle currentRouteIndex ;;
    match target with
    | Some target =>
        if (index target <? Z.of_nat (routeLength vehicle))%Z then
          let targetHeading :=
            bearingTo (position vehicle) (target_lat target) (target_lng target) in
          let newHeading := targetHeading in
          let newPosition :=
            calculateNewPosition (position vehicle) distanceKm targetHeading in
          r <- Math_random ;;
          (if r <? 0.1 then
             console_log (FollowingRoute (id vehicle) currentRouteIndex
                            (routeLength vehicle) (index target) newHeading)
           else ret tt) ;;;
          ret (newPosition, newHeading)
        else
          dlat <- destination_lat vehicle ;;
          dlng <- destination_lng vehicle ;;
          let newHeading := bearingTo (position vehicle) dlat dlng in
          ret (calculateNewPosition (position vehicle) distanceKm newHeading,
               newHeading)
    | None =>
        dlat <- destination_lat vehicle ;;
        dlng <- destination_lng vehicle ;;
        let newHeading := bearingTo (position vehicle) dlat dlng in
        ret (calculateNewPosition (position vehicle) distanceKm newHeading,
             newHeading)
    end
  else
    console_log (NoRoute (id vehicle) (routeLength vehicle)) ;;;
    dlat <- destination_lat vehicle ;;
    dlng <- destination_lng vehicle ;;
    let newHeading := bearingTo (position vehicle) dlat dlng in
    ret (calculateNewPosition (position vehicle) distanceKm newHeading,
         newHeading).

(** Normalise a heading to the range from 0 to 360. *)
Definition normalizeHeading (newHeading : R) : R :=
  ((newHeading %% 360) + 360) %% 360.

(** The distance from the new position to the destination. *)
Definition distanceToDestination (vehicle : Vehicle) (newPosition : Position)
    : JS R :=
  dlat <- destination_lat vehicle ;;
  dlng <- destination_lng vehicle ;;
  ret (flatEarthMetres dlat dlng (lat newPosition) (lng newPosition)).

(** The cargo temperature drift of refrigerated cargo. *)
Definition driftCargoTemperature (updatedVehicle : Vehicle) : JS Vehicle :=
  match cargoTemperature updatedVehicle with
  | Some t =>
      r <- Math_random ;;
      let tempVariation := (r - 0.5) * 0.5 in
      ret (set_cargoTemperature
             (Some (Math_max 0 (Math_min 10 (t + tempVariation))))
             updatedVehicle)
  | None => ret updatedVehicle
  end.

Definition simulateGPSUpdate (vehicle : Vehicle) : JS Vehicle :=
  now <- new_Date ;;
  let distanceKm := distanceKm vehicle in
  newSpeed <- rawSpeed vehicle ;;
  newSpeed <- speedLimitCheck vehicle newSpeed ;;
  ' (newPosition, newHeading) <- moveTowardTarget vehicle distanceKm ;;
  let newHeading := normalizeHeading newHeading in
  distanceToDestination <- distanceToDestination vehicle newPosition ;;
  finalPosition <- finalPosition vehicle distanceToDestination newPosition ;;
  let newSpeed := arrivalSpeed distanceToDestination newSpeed in
  let updatedHistory := updatedHistory now vehicle in
  let lastStopTime := updateLastStopTime now newSpeed (lastStopTime vehicle) in
  let updatedVehicle :=
    mkVehicle (id vehicle) (driverName vehicle) finalPosition
      (destination vehicle) newSpeed newHeading (scheduledETA vehicle)
      (cargoTemperature vehicle) lastStopTime (status vehicle)
      (Some updatedHistory) (route vehicle) in
  now' <- new_Date ;;
  let updatedVehicle :=
    set_status (calculateVehicleStatus now' updatedVehicle) updatedVehicle in
  driftCargoTemperature updatedVehicle.

(** [vehicles.map(simulateGPSUpdate)]. *)
Fixpoint simulateAllVehicles (vehicles : list Vehicle) : JS (list Vehicle) :=
  match vehicles with
  | [] => ret []
  | vehicle :: rest =>
      updated <- simulateGPSUpdate vehicle ;;
      others <- simulateAllVehicles rest ;;
      ret (updated :: others)
  end.

(** The callback of the interval of [startGPSSimulation]: the store
    takes the updated vehicles; an exception escaping the callback
    leaves the store as it was. *)
Definition intervalCallback (vehicles : list Vehicle)
    : World -> list Vehicle * World :=
  fun w =>
    match simulateAllVehicles vehicles w with
    | (Returned updatedVehicles, w') => (updatedVehicles, w')
    | (Thrown _, w') => (vehicles, w')
    end.

(** The timer fires every 4000 milliseconds. *)
Definition elapse (ms : Z) (w : World) : World :=
  mkWorld (draws w) (cursor w) (clock w + ms) (console w).

Fixpoint runSimulation (ticks : nat) (vehicles : list Vehicle) (w : World)
    : list Vehicle * World :=
  match ticks with
  | O => (vehicles, w)
  | S n =>
      let '(updatedVehicles, w') := intervalCallback vehicles (elapse 4000 w) in
      runSimulation n updatedVehicles w'
  end.

End Simulation.

(** The distance of a route point as [findClosestRoutePoint] measures it. *)
Definition distanceFrom (position point : Position) : R :=
  flatEarthMetres (lat point) (lng point) (lat position) (lng position).

(** The index [getNextRouteTarget] settles on for a vehicle on the route
    [points]: the one after the closest point, or the last one. *)
Definition routeTargetIndex (vehicle : Vehicle) (points : list Position) : Z :=
  Z.min (findClosestRoutePoint (position vehicle) (Some points) + 1)
        (length_of points - 1).

(** The speed-violation records among the console output. *)
Definition isViolation (e : LogEvent) : bool :=
  match e with
  | SpeedViolation _ _ _ _ => true
  | _ => false
  end.

Definition violations (log : list LogEvent) : list LogEvent :=
  filter isViolation log.

(** The vehicle the update assembles before the status and the cargo
    temperature are refreshed. *)
Definition assembled (now : Z) (vehicle : Vehicle) (d : Destination)
    (s : R) (p : Position) (h : R) : Vehicle :=
  let dist := flatEarthMetres (dest_lat d) (dest_lng d) (lat p) (lng p) in
  let speed' := arrivalSpeed dist s in
  mkVehicle (id vehicle) (driverName vehicle)
    (if dist <? 100 then mkPosition (dest_lat d) (dest_lng d) else p)
    (destination vehicle) speed' (normalizeHeading h) (scheduledETA vehicle)
    (cargoTemperature vehicle)
    (updateLastStopTime now speed' (lastStopTime vehicle))
    (status vehicle) (Some (updatedHistory now vehicle)) (route vehicle).

(** Neither refreshing the status nor the temperature drift touches the
    other fields. *)
Definition sameMotion (a b : Vehicle) : Prop :=
  id b = id a /\ position b = position a /\ destination b = destination a /\
  currentSpeed b = currentSpeed a /\ heading b = heading a /\
  lastStopTime b = lastStopTime a /\ statusHistory b = statusHistory a /\
  route b = route a.

(** A vehicle the simulation can update. *)
Definition hasDestination (v : Vehicle) : Prop := destination v <> None.

(** The speed after the random adjustments, before it is clamped to the
    realistic bounds: what [rawSpeed] computes up to its last line. *)
Definition perturbedSpeed (vehicle : Vehicle) : JS R :=
  r <- Math_random ;;
  let speedVariation := (r - 0.5) * 2 * 0.05 in
  let newSpeed := currentSpeed vehicle * (1 + speedVariation) in
  r <- Math_random ;;
  let newSpeed :=
    if r <? 0.05 then Math_max 10 (newSpeed * 0.5) else newSpeed in
  r <- Math_random ;;
  let newSpeed :=
    if r <? 0.03 then Math_min 60 (newSpeed * 1.2) else newSpeed in
  r <- Math_random ;;
  (if r <? 0.02 then
     r <- Math_random ;;
     let newSpeed := 85 + r * 13 in
     console_log (EnteringHighway (id vehicle) newSpeed) ;;;
     ret newSpeed
   else ret newSpeed).

(** ** Instances and sample vehicles *)

(** Modelled from the spec: [calculateNewPosition] of
    [utils/statusCalculations] is not among the sources.  It moves
    [distanceKm] along [heading] from the position with an equirectangular
    approximation, 111 km per degree. *)
Definition calculateNewPosition_flat (position : Position)
    (distanceKm heading : R) : Position :=
  let rad := heading * PI / 180 in
  mkPosition
    (lat position + distanceKm * cos rad / 111)
    (lng position
     + distanceKm * sin rad / (111 * cos (lat position * PI / 180))).

(** Modelled from the spec: [calculateVehicleStatus] of
    [utils/statusCalculations] is not among the sources.  Critical when the
    vehicle is slower than 8 km/h and stopped for more than 10 minutes;
    warning when slower than the average speed the schedule requires;
    on time otherwise. *)
Definition calculateVehicleStatus_schedule (now : Z) (v : Vehicle)
    : VehicleStatus :=
  let stalled :=
    match lastStopTime v with
    | Some t => (currentSpeed v <? 8) && (600000 <? now - t)%Z
    | None => false
    end in
  let behind :=
    match scheduledETA v, destination v with
    | Some eta, Some d =>
        let remainingKm :=
          flatEarthMetres (dest_lat d) (dest_lng d)
            (lat (position v)) (lng (position v)) / 1000 in
        let remainingHours := IZR (eta - now) / 3600000 in
        (0 <? remainingHours) && (currentSpeed v * remainingHours <? remainingKm)
    | _, _ => false
    end in
  if stalled then critical else if behind then warning else on_time.

(** Every draw is one half: no random branch fires. *)
Definition calmWorld : World := mkWorld (fun _ => 0.5) 0 0 [].

(** As [calmWorld], but the fifth draw is 0. *)
Definition chattyWorld : World :=
  mkWorld (fun n => if Nat.eqb n 4 then 0 else 0.5) 0 0 [].

Definition mgRoad : Destination :=
  mkDestination 12.98 77.60 "MG Road, Bangalore, Karnataka".

(** The vehicle of the scenario: no route, 40 km/h. *)
Definition scenarioVehicle : Vehicle :=
  mkVehicle "v1" "Jesse Pinkman" (mkPosition 12.97 77.59) (Some mgRoad)
    40 0 None None None on_time (Some []) None.

(** A vehicle standing 50 metres south of its destination. *)
Definition arrivingVehicle : Vehicle :=
  mkVehicle "v2" "Saul Goodman" (mkPosition (12.98 - 50 / 111000) 77.60)
    (Some mgRoad) 0 0 None None None on_time (Some []) None.

Definition threePoints : list Position :=
  [mkPosition 0 0; mkPosition 1 0; mkPosition 2 0].

(** A vehicle at the last point of its route, short of its destination. *)
Definition endOfRouteVehicle : Vehicle :=
  mkVehicle "v3" "Hank Schrader" (mkPosition 2 0)
    (Some (mkDestination 3 1 "Whitefield, Bangalore, Karnataka"))
    40 0 None None None on_time (Some []) (Some threePoints).

(** A vehicle at the start of a route, without destination. *)
Definition lostVehicle : Vehicle :=
  mkVehicle "v4" "Skyler White" (mkPosition 0 0) None
    40 0 None None None on_time (Some []) (Some threePoints).

(** ** The vehicle store *)

(** [Math.floor]. *)
Definition Math_floor (x : R) : Z := Int_part x.

(** [xs[i]] for a number [i]: [None] is [undefined]. *)
Definition element_at {A} (xs : list A) (i : Z) : option A :=
  if (i <? 0)%Z then None else nth_error xs (Z.to_nat i).

(** [new Date(ms)]: the time value is truncated to whole milliseconds
    (times are taken to lie within the range of [Date]). *)
Definition Date_of (ms : R) : Z := Num.trunc ms.

(** The template literal [`${n}`] of a natural number. *)
Definition string_of_nat (n : nat) : string :=
  NilEmpty.string_of_uint (Nat.to_uint n).

Definition BANGALORE_CENTER : Position := mkPosition 12.9716 77.5946.

Definition generateRandomPosition : JS Position :=
  r <- Math_random ;;
  let latOffset := (r - 0.5) * 0.2 in
  r <- Math_random ;;
  let lngOffset := (r - 0.5) * 0.2 in
  ret (mkPosition (lat BANGALORE_CENTER + latOffset)
                  (lng BANGALORE_CENTER + lngOffset)).

Definition addresses : list string :=
  [ "MG Road, Bangalore, Karnataka";
    "Koramangala, Bangalore, Karnataka";
    "Indiranagar, Bangalore, Karnataka";
    "Whitefield, Bangalore, Karnataka";
    "Electronic City, Bangalore, Karnataka";
    "Jayanagar, Bangalore, Karnataka";
    "HSR Layout, Bangalore, Karnataka";
    "Marathahalli, Bangalore, Karnataka";
    "BTM Layout, Bangalore, Karnataka";
    "Yelahanka, Bangalore, Karnataka";
    "JP Nagar, Bangalore, Karnataka";
    "Banashankari, Bangalore, Karnataka" ]%string.

(** The address is [undefined] when the index is out of range, which a
    draw from 0 up to 1 excludes; the record then holds the empty
    string. *)
Definition generateDestination : JS Destination :=
  position <- generateRandomPosition ;;
  r <- Math_random ;;
  let address :=
    element_at addresses (Math_floor (r * IZR (Z.of_nat (length addresses)))) in
  ret (mkDestination (lat position) (lng position)
         (match address with Some a => a | None => EmptyString end)).

(** Distance between two positions in kilometres (Haversine formula). *)
Definition calculateDistance (point1 point2 : Position) : R :=
  let R := 6371 in
  let dLat := ((lat point2 - lat point1) * Math_PI) / 180 in
  let dLng := ((lng point2 - lng point1) * Math_PI) / 180 in
  let a :=
    sin (dLat / 2) * sin (dLat / 2) +
    cos ((lat point1 * Math_PI) / 180) *
    cos ((lat point2 * Math_PI) / 180) *
    sin (dLng / 2) *
    sin (dLng / 2) in
  let c := 2 * Math_atan2 (Math_sqrt a) (Math_sqrt (1 - a)) in
  R * c.

(** The [a] of [calculateDistance], whose square roots are taken; it is
    between 0 and 1 for latitudes between the poles. *)
Definition haversine (point1 point2 : Position) : R :=
  let dLat := ((lat point2 - lat point1) * Math_PI) / 180 in
  let dLng := ((lng point2 - lng point1) * Math_PI) / 180 in
  sin (dLat / 2) * sin (dLat / 2) +
  cos ((lat point1 * Math_PI) / 180) *
  cos ((lat point2 * Math_PI) / 180) *
  sin (dLng / 2) *
  sin (dLng / 2).

(** A latitude in degrees, from pole to pole. *)
Definition validLatitude (p : Position) : Prop := -90 <= lat p <= 90.

Definition driverNames : list string :=
  [ "Jesse Pinkman"; "Saul Goodman"; "Hank Schrader"; "Skyler White";
    "Mike Ehrmantraut"; "Walter White"; "Badger Mayhew"; "Combo Ortega";
    "Huell Babineaux"; "Kuby Patrick"; "Tyrus Kitt"; "Victor Santiago" ]%string.

Inductive CargoStatus := Fresh | Frozen | Mixed.

Definition cargoTypes : list CargoStatus := [Fresh; Frozen; Mixed].

(** The callback of the [map] of [createInitialVehicles].  The
    [cargoStatus] only decides whether there is a cargo temperature; the
    vehicle record does not keep it. *)
Definition createInitialVehicle (name : string) (index : nat) : JS Vehicle :=
  now <- new_Date ;;
  r <- Math_random ;;
  let cargoStatus :=
    element_at cargoTypes (Math_floor (r * IZR (Z.of_nat (length cargoTypes)))) in
  position <- generateRandomPosition ;;
  destination <- generateDestination ;;
  let distanceKm :=
    calculateDistance position
      (mkPosition (dest_lat destination) (dest_lng destination)) in
  r <- Math_random ;;
  let currentSpeed := Math_min 100 (30 + r * 30) in
  r <- Math_random ;;
  let avgSpeed := 35 + r * 10 in
  let travelTimeHours := distanceKm / avgSpeed in
  let scheduledETA := Date_of (IZR now + travelTimeHours * 60 * 60 * 1000) in
  let latDiff := dest_lat destination - lat position in
  let lngDiff := dest_lng destination - lng position in
  let heading := ((Math_atan2 lngDiff latDiff * 180) / Math_PI + 360) %% 360 in
  cargoTemperature <-
    (match cargoStatus with
     | Some Fresh => ret None
     | _ => r <- Math_random ;; ret (Some (2 + r * 4))
     end) ;;
  ret (mkVehicle ("v" ++ string_of_nat (index + 1)) name position
         (Some destination) currentSpeed heading (Some scheduledETA)
         cargoTemperature None on_time (Some []) None).

(** [names.map((name, index) => ...)], from [index] on. *)
Fixpoint mapInitialVehicles (names : list string) (index : nat)
    : JS (list Vehicle) :=
  match names with
  | [] => ret []
  | name :: rest =>
      vehicle <- createInitialVehicle name index ;;
      others <- mapInitialVehicles rest (S index) ;;
      ret (vehicle :: others)
  end.

Definition createInitialVehicles : JS (list Vehicle) :=
  mapInitialVehicles driverNames 0.

(** The state of the store and its actions; [set] replaces the state. *)
Module VehicleStore.

Record VehicleState := mkVehicleState {
  vehicles : list Vehicle;
  selectedVehicleId : option string
}.

Definition setSelectedVehicle (vehicleId : option string) (st : VehicleState)
    : VehicleState :=
  mkVehicleState (vehicles st) vehicleId.

Definition updateVehicles (vs : list Vehicle) (st : VehicleState)
    : VehicleState :=
  mkVehicleState vs (selectedVehicleId st).

(** [{ ...v, route }]. *)
Definition set_route (r : option (list Position)) (v : Vehicle) : Vehicle :=
  mkVehicle (id v) (driverName v) (position v) (destination v)
    (currentSpeed v) (heading v) (scheduledETA v) (cargoTemperature v)
    (lastStopTime v) (status v) (statusHistory v) r.

Definition updateVehicleRoute (vehicleId : string) (route : list Position)
    (st : VehicleState) : VehicleState :=
  mkVehicleState
    (map (fun v => if String.eqb (id v) vehicleId
                   then set_route (Some route) v else v)
         (vehicles st))
    (selectedVehicleId st).

Definition addVehicle (vehicle : Vehicle) (st : VehicleState) : VehicleState :=
  mkVehicleState (vehicles st ++ [vehicle]) (selectedVehicleId st).

Definition removeVehicle (vehicleId : string) (st : VehicleState)
    : VehicleState :=
  mkVehicleState
    (filter (fun v => negb (String.eqb (id v) vehicleId)) (vehicles st))
    (selectedVehicleId st).

End VehicleStore.

(** ** The speed monitor *)

(** The two lists and the count of the speed violations panel. *)
Definition speedingVehicles (vs : list Vehicle) : list Vehicle :=
  filter (fun v => currentSpeed v >=? 95) vs.

Definition fastVehicles (vs : list Vehicle) : list Vehicle :=
  filter (fun v => (currentSpeed v >=? 80) && (currentSpeed v <? 95)) vs.

Definition normalVehicles (vs : list Vehicle) : list Vehicle :=
  filter (fun v => currentSpeed v <? 80) vs.

(** ** Routes on the map *)

(** A GeoJSON coordinate, longitude first. *)
Definition Coordinate : Type := (R * R)%type.

(** [coordinates.map(coord => ({ lng: coord[0], lat: coord[1] }))]. *)
Definition routePositions (coordinates : list Coordinate) : list Position :=
  map (fun coord => mkPosition (snd coord) (fst coord)) coordinates.

(** [route.map(pos => [pos.lng, pos.lat])]. *)
Definition routeCoordinates (route : list Position) : list Coordinate :=
  map (fun pos => (lng pos, lat pos)) route.

(** What no update changes. *)
Definition sameIdentity (a b : Vehicle) : Prop :=
  id b = id a /\ driverName b = driverName a /\
  destination b = destination a /\ scheduledETA b = scheduledETA a /\
  route b = route a.

(** A vehicle standing on its destination. *)
Definition parked (v : Vehicle) : Prop :=
  exists d,
    destination v = Some d /\
    currentSpeed v = 0 /\
    position v = mkPosition (dest_lat d) (dest_lng d).

(** A world whose draws are numbers [Math.random] can return: at least 0
    and less than 1. *)
Definition fair (w : World) : Prop := forall n, 0 <= draws w n < 1.


(** At most 0.1 degree from [BANGALORE_CENTER] in latitude and longitude,
    both ends included. *)
Definition aroundCenter (plat plng : R) : Prop :=
  lat BANGALORE_CENTER - 0.1 <= plat <= lat BANGALORE_CENTER + 0.1 /\
  lng BANGALORE_CENTER - 0.1 <= plng <= lng BANGALORE_CENTER + 0.1.

(** What holds of every vehicle of the initial fleet created at time
    [now]; the ranges of the position, the speed and the cargo temperature
    include both ends. *)
Definition freshVehicle (now : Z) (v : Vehicle) : Prop :=
  aroundCenter (lat (position v)) (lng (position v)) /\
  (exists d,
     destination v = Some d /\
     aroundCenter (dest_lat d) (dest_lng d) /\
     In (address d) addresses) /\
  30 <= currentSpeed v <= 60 /\
  0 <= heading v < 360 /\
  (exists eta, scheduledETA v = Some eta /\ (now <= eta)%Z) /\
  match cargoTemperature v with
  | Some t => 2 <= t <= 6
  | None => True
  end /\
  lastStopTime v = None /\
  status v = on_time /\
  statusHistory v = Some [] /\
  route v = None.

(** A vehicle that has been through [n] ticks: it has a destination and
    one history entry per tick, up to 450. *)
Definition recorded (n : nat) (v : Vehicle) : Prop :=
  hasDestination v /\
  exists entries,
    statusHistory v = Some entries /\ length entries = Nat.min n 450.

(** A history in chronological order, up to time [now]. *)
Definition chronological (now : Z) (v : Vehicle) : Prop :=
  StronglySorted Z.lt (map timestamp (existingHistory v)) /\
  Forall (fun e => (timestamp e <= now)%Z) (existingHistory v).

(** ** The simulation timer *)

(** The timers of the page and the module variable [simulationInterval].
    Handles are the numbers [setInterval] returns, never reused; a handle
    is truthy. *)
Module Timer.

Record Timers := mkTimers {
  simulationInterval : option nat;
  activeIntervals : list nat;
  nextHandle : nat
}.

Definition clearInterval (h : nat) (t : Timers) : Timers :=
  mkTimers (simulationInterval t)
    (remove Nat.eq_dec h (activeIntervals t)) (nextHandle t).

Definition setInterval (t : Timers) : nat * Timers :=
  (nextHandle t,
   mkTimers (simulationInterval t) (nextHandle t :: activeIntervals t)
     (S (nextHandle t))).

(** What happens in the timers of the page: [startGPSSimulation] is
    called (its synchronous part), the continuation of a call runs once the
    module is imported and the routes are initialised, [stopGPSSimulation]
    is called. *)
Inductive Event := StartCalled | StartResumed | StopCalled.

Definition startGPSSimulation_called (t : Timers) : Timers :=
  match simulationInterval t with
  | Some h => clearInterval h t
  | None => t
  end.

Definition startGPSSimulation_resumed (t : Timers) : Timers :=
  let '(h, t') := setInterval t in
  mkTimers (Some h) (activeIntervals t') (nextHandle t').

Definition stopGPSSimulation (t : Timers) : Timers :=
  match simulationInterval t with
  | Some h =>
      let t' := clearInterval h t in
      mkTimers None (activeIntervals t') (nextHandle t')
  | None => t
  end.

Definition step (t : Timers) (e : Event) : Timers :=
  match e with
  | StartCalled => startGPSSimulation_called t
  | StartResumed => startGPSSimulation_resumed t
  | StopCalled => stopGPSSimulation t
  end.

Definition run (events : list Event) (t : Timers) : Timers :=
  fold_left step events t.

(** A use of the store in which every start has resumed before the next
    call: [true] is a whole start, [false] a stop. *)
Definition sequential (calls : list bool) : list Event :=
  flat_map (fun start : bool => if start then [StartCalled; StartResumed]
                                else [StopCalled]) calls.

(** No interval is running and none is remembered. *)
Definition idle (t : Timers) : Prop :=
  simulationInterval t = None /\ activeIntervals t = [].

(** Handles not yet given out are not in use. *)
Definition wellFormed (t : Timers) : Prop :=
  Forall (fun h => (h < nextHandle t)%nat) (activeIntervals t) /\
  match simulationInterval t with
  | Some h => (h < nextHandle t)%nat
  | None => True
  end.

End Timer.

(** ** More sample data *)

(** A vehicle at 97 km/h, no route. *)
Definition hastyVehicle : Vehicle :=
  mkVehicle "v7" "Badger Mayhew" (mkPosition 12.97 77.59) (Some mgRoad)
    97 0 None None None on_time (Some []) None.

(** As [calmWorld], but the first draw is 0.99: a jitter of +4.9%. *)
Definition gustWorld : World :=
  mkWorld (fun n => if Nat.eqb n 0 then 0.99 else 0.5) 0 0 [].

(** Half an hour of history: 450 entries, 4000 ms apart. *)
Definition fullHistory : list StatusHistoryEntry :=
  map (fun k => mkEntry (Z.of_nat k * 4000) on_time 40 (mkPosition 12.97 77.59))
      (seq 0 450).

(** The vehicle of the scenario after half an hour. *)
Definition veteranVehicle : Vehicle :=
  mkVehicle "v1" "Jesse Pinkman" (mkPosition 12.97 77.59) (Some mgRoad)
    40 0 None None None on_time (Some fullHistory) None.

(** As [calmWorld], half an hour later. *)
Definition busyWorld : World := mkWorld (fun _ => 0.5) 0 1800000 [].

(** A refrigerated vehicle at 4 degrees. *)
Definition refrigeratedVehicle : Vehicle :=
  mkVehicle "v5" "Mike Ehrmantraut" (mkPosition 12.97 77.59) (Some mgRoad)
    40 0 None (Some 4) None on_time (Some []) None.

(** A vehicle standing on its destination. *)
Definition parkedVehicle : Vehicle :=
  mkVehicle "v6" "Walter White" (mkPosition 12.98 77.60) (Some mgRoad)
    0 0 None None None on_time (Some []) None.

Definition sampleFleet : list Vehicle :=
  [scenarioVehicle; endOfRouteVehicle; refrigeratedVehicle].

Definition sampleStore : VehicleStore.VehicleState :=
  VehicleStore.mkVehicleState sampleFleet (Some "v1"%string).

(** The timers of a page that has not started the simulation. *)
Definition idleTimers : Timer.Timers := Timer.mkTimers None [] 1.

(** * Properties *)

(** ** Comparisons and remainders *)

Lemma ltb_true x y : (x <? y) = true <-> x < y.
Proof.
  unfold Num.ltb; destruct (Rlt_dec x y); split; intros; try discriminate; tauto.
Qed.

Lemma ltb_false x y : (x <? y) = false <-> y <= x.
Proof.
  unfold Num.ltb; destruct (Rlt_dec x y); split; intros;
    try discriminate; try lra; auto.
Qed.

Lemma geb_true x y : (x >=? y) = true <-> y <= x.
Proof.
  unfold Num.geb; destruct (Rle_dec y x); split; intros; try discriminate; tauto.
Qed.

Lemma geb_false x y : (x >=? y) = false <-> x < y.
Proof.
  unfold Num.geb; destruct (Rle_dec y x); split; intros;
    try discriminate; try lra; auto.
Qed.

Lemma trunc_nonneg x : 0 <= x -> IZR (Num.trunc x) <= x < IZR (Num.trunc x) + 1.
Proof.
  intros Hx. unfold Num.trunc. destruct (Rle_dec 0 x) as [_|Hn]; [|lra].
  destruct (base_Int_part x). lra.
Qed.

Lemma trunc_neg x : x < 0 -> x <= IZR (Num.trunc x) < x + 1.
Proof.
  intros Hx. unfold Num.trunc. destruct (Rle_dec 0 x) as [Hp|_]; [lra|].
  rewrite opp_IZR. destruct (base_Int_part (- x)). lra.
Qed.

Lemma rem_nonneg x : 0 <= x -> 0 <= x %% 360 < 360.
Proof.
  intros Hx. unfold Num.rem.
  assert (Ht : 0 <= x / 360) by (apply Rmult_le_pos; lra).
  pose proof (trunc_nonneg _ Ht) as Hb.
  assert (Hx' : x = 360 * (x / 360)) by field.
  lra.
Qed.

Lemma rem_neg x : x < 0 -> -360 < x %% 360 <= 0.
Proof.
  intros Hx. unfold Num.rem.
  assert (Ht : x / 360 < 0) by lra.
  pose proof (trunc_neg _ Ht) as Hb.
  assert (Hx' : x = 360 * (x / 360)) by field.
  lra.
Qed.

Lemma rem_abs x : -360 < x %% 360 < 360.
Proof.
  destruct (Rle_dec 0 x) as [Hp|Hn].
  - pose proof (rem_nonneg x Hp). lra.
  - pose proof (rem_neg x). lra.
Qed.


(** ** The speed stage *)

Lemma clamp_5_98 x : 5 <= Math_max 5 (Math_min 98 x) <= 98.
Proof.
  unfold Math_max, Math_min, Rmax, Rmin.
  repeat destruct Rle_dec; lra.
Qed.

Lemma violations_app_quiet log e :
  isViolation e = false -> violations (log ++ [e]) = violations log.
Proof.
  intros He. unfold violations. rewrite filter_app. simpl. rewrite He.
  apply app_nil_r.
Qed.

(** The speed stage always returns, with a speed between 5 and 98, and
    writes no violation record. *)
Lemma rawSpeed_returns (v : Vehicle) (w : World) :
  exists s w',
    rawSpeed v w = (Returned s, w') /\
    5 <= s <= 98 /\
    clock w' = clock w /\
    violations (console w') = violations (console w).
Proof.
  unfold rawSpeed, bind, Math_random, console_log, ret. cbn.
  destruct (_ <? 0.02); cbn.
  - eexists _, _. split; [reflexivity|]. split; [apply clamp_5_98|].
    cbn. split; [reflexivity|]. apply violations_app_quiet. reflexivity.
  - eexists _, _. split; [reflexivity|]. split; [apply clamp_5_98|].
    cbn. split; reflexivity.
Qed.

(** When the second, third and fourth draws miss their thresholds, only
    the jitter applies and nothing is logged. *)
Lemma rawSpeed_calm (v : Vehicle) (w : World) :
  0.05 <= draws w (1 + cursor w) ->
  0.03 <= draws w (2 + cursor w) ->
  0.02 <= draws w (3 + cursor w) ->
  rawSpeed v w
  = (Returned
       (Math_max 5
          (Math_min 98
             (currentSpeed v * (1 + (draws w (cursor w) - 0.5) * 2 * 0.05)))),
     mkWorld (draws w) (4 + cursor w) (clock w) (console w)).
Proof.
  intros H2 H3 H4.
  apply ltb_false in H2, H3, H4.
  unfold rawSpeed, bind, Math_random, console_log, ret.
  cbn [draws cursor clock console plus] in *.
  rewrite H2, H3, H4. reflexivity.
Qed.

(** The speed stage draws four or five random numbers. *)
Lemma rawSpeed_cursor (v : Vehicle) (w : World) :
  (cursor w + 4 <= cursor (snd (rawSpeed v w)))%nat.
Proof.
  unfold rawSpeed, bind, Math_random, console_log, ret. cbn.
  destruct (_ <? 0.02); cbn; lia.
Qed.

(** A speed of at most 98 passes the speed-limit check unchanged and
    unreported. *)
Lemma speedLimitCheck_below (v : Vehicle) (s : R) (w : World) :
  s <= 98 -> speedLimitCheck v s w = (Returned s, w).
Proof.
  intros Hs. unfold speedLimitCheck.
  assert (H : (SPEED_LIMIT <? s) = false)
    by (apply ltb_false; unfold SPEED_LIMIT; lra).
  rewrite H. reflexivity.
Qed.

(** ** Route following *)

Lemma forEach_closest_range position points :
  forall index acc,
    (0 <= fst acc < index + length_of points)%Z ->
    (0 <= index)%Z ->
    (0 <= fst (forEach_closest position points index acc)
       < index + length_of points)%Z.
Proof.
  unfold length_of.
  induction points as [|point rest IH]; intros index acc Hacc Hidx.
  - exact Hacc.
  - cbn [forEach_closest]. cbn [length] in *.
    replace (index + Z.of_nat (S (length rest)))%Z
      with ((index + 1) + Z.of_nat (length rest))%Z in * by lia.
    apply IH; [|lia].
    destruct (Num.lt_ext _ (snd acc)); cbn [fst]; lia.
Qed.

(** What the [forEach] of [findClosestRoutePoint] leaves: a minimum no
    larger than the one it started from and than the distance of any
    point it visited, and, unless it kept its start, the index of a
    visited point at exactly that distance. *)
Lemma forEach_closest_min position points :
  forall index acc,
    let r := forEach_closest position points index acc in
    (forall m0, snd acc = Num.Finite m0 ->
       exists m, snd r = Num.Finite m /\ m <= m0) /\
    (forall q, In q points ->
       exists m, snd r = Num.Finite m /\ m <= distanceFrom position q) /\
    (r = acc \/
     exists k p,
       nth_error points k = Some p /\
       fst r = (index + Z.of_nat k)%Z /\
       snd r = Num.Finite (distanceFrom position p)).
Proof.
  induction points as [|point rest IH]; intros index acc r.
  - subst r. cbn [forEach_closest]. split; [|split].
    + intros m0 H. exists m0. split; [exact H|lra].
    + intros q [].
    + left. reflexivity.
  - subst r. cbn [forEach_closest].
    fold (distanceFrom position point).
    set (d := distanceFrom position point).
    set (acc' := if Num.lt_ext d (snd acc) then (index, Num.Finite d) else acc).
    destruct (IH (index + 1)%Z acc') as (Hle & Hmin & Hidx).
    assert (Hd : exists m, snd acc' = Num.Finite m /\ m <= d).
    { subst acc'. destruct (Num.lt_ext d (snd acc)) eqn:Hlt.
      - exists d. split; [reflexivity|lra].
      - destruct (snd acc) as [|m0]; [discriminate|].
        cbn [Num.lt_ext] in Hlt. apply ltb_false in Hlt.
        exists m0. split; [reflexivity|exact Hlt]. }
    split; [|split].
    + intros m0 H0.
      assert (H' : exists m, snd acc' = Num.Finite m /\ m <= m0).
      { subst acc'. destruct (Num.lt_ext d (snd acc)) eqn:Hlt.
        - rewrite H0 in Hlt. cbn [Num.lt_ext] in Hlt. apply ltb_true in Hlt.
          exists d. split; [reflexivity|lra].
        - exists m0. split; [exact H0|lra]. }
      destruct H' as (m1 & H1 & Hm1).
      destruct (Hle m1 H1) as (m & Hm & Hmm). exists m. split; [exact Hm|lra].
    + intros q [<- | Hin].
      * destruct Hd as (m1 & H1 & Hm1).
        destruct (Hle m1 H1) as (m & Hm & Hmm).
        exists m. split; [exact Hm|]. fold d. lra.
      * apply Hmin. exact Hin.
    + destruct Hidx as [Hsame | (k & p & Hk & Hfst & Hsnd)].
      * rewrite Hsame. subst acc'.
        destruct (Num.lt_ext d (snd acc)); [|left; reflexivity].
        right. exists 0%nat, point. split; [reflexivity|].
        cbn [fst snd]. split; [lia|reflexivity].
      * right. exists (S k), p. split; [exact Hk|].
        split; [rewrite Hfst; lia|exact Hsnd].
Qed.

(** The index found is that of a point of the route no farther from the
    position than any other point of the route. *)
Lemma findClosestRoutePoint_closest position points :
  points <> [] ->
  exists p,
    nth_error points (Z.to_nat (findClosestRoutePoint position (Some points)))
    = Some p /\
    forall q, In q points -> distanceFrom position p <= distanceFrom position q.
Proof.
  intros Hne.
  assert (Hfind : findClosestRoutePoint position (Some points)
                  = fst (forEach_closest position points 0%Z (0%Z, Num.Infinity)))
    by (destruct points; [congruence|reflexivity]).
  rewrite Hfind.
  destruct (forEach_closest_min position points 0%Z (0%Z, Num.Infinity))
    as (_ & Hmin & Hidx).
  destruct points as [|p0 rest]; [congruence|].
  destruct (Hmin p0 (or_introl eq_refl)) as (m & Hm & _).
  destruct Hidx as [Hsame | (k & p & Hk & Hfst & Hsnd)].
  - rewrite Hsame in Hm. discriminate.
  - exists p. rewrite Hfst. rewrite Z.add_0_l, Nat2Z.id.
    split; [exact Hk|].
    intros q Hq. destruct (Hmin q Hq) as (m' & Hm' & Hle).
    rewrite Hsnd in Hm'. injection Hm' as <-. exact Hle.
Qed.

(** The closest index is an index of the route. *)
Lemma findClosestRoutePoint_range position points :
  points <> [] ->
  (0 <= findClosestRoutePoint position (Some points) < length_of points)%Z.
Proof.
  intros Hne. destruct points as [|p rest]; [congruence|].
  unfold findClosestRoutePoint.
  apply (forEach_closest_range position (p :: rest) 0%Z (0%Z, Num.Infinity)).
  - unfold length_of. cbn [fst length]. lia.
  - lia.
Qed.

Lemma at_index_in_range points i :
  (0 <= i < length_of points)%Z ->
  exists p, nth_error points (Z.to_nat i) = Some p /\
            forall w, at_index points i w = (Returned p, w).
Proof.
  unfold length_of. intros Hi.
  destruct (nth_error points (Z.to_nat i)) as [p|] eqn:Hp.
  - exists p. split; [reflexivity|]. intros w. unfold at_index.
    destruct (i <? 0)%Z eqn:Hneg; [apply Z.ltb_lt in Hneg; lia|].
    rewrite Hp. reflexivity.
  - apply nth_error_None in Hp. lia.
Qed.

(** With a route that is not empty, the target is always a waypoint of
    the route, the one after [currentRouteIndex] or the last one; the
    destination is never read. *)
Lemma getNextRouteTarget_on_route vehicle points currentRouteIndex :
  route vehicle = Some points ->
  points <> [] ->
  (0 <= currentRouteIndex)%Z ->
  let targetIndex := Z.min (currentRouteIndex + 1) (length_of points - 1) in
  exists p,
    nth_error points (Z.to_nat targetIndex) = Some p /\
    forall w,
      getNextRouteTarget vehicle currentRouteIndex w
      = (Returned (Some (mkTarget (lat p) (lng p) targetIndex)), w).
Proof.
  intros Hroute Hne Hcur targetIndex.
  assert (Hlen : (0 < length_of points)%Z).
  { unfold length_of. destruct points; [congruence|]. cbn [length]. lia. }
  destruct (at_index_in_range points targetIndex) as (p & Hp & Hat).
  { subst targetIndex. lia. }
  exists p. split; [exact Hp|]. intros w.
  unfold getNextRouteTarget. rewrite Hroute.
  destruct points as [|p0 rest]; [congruence|].
  fold targetIndex.
  destruct (targetIndex >=? length_of (p0 :: rest))%Z eqn:Hge.
  - apply Z.geb_le in Hge. subst targetIndex. lia.
  - unfold bind. rewrite Hat. reflexivity.
Qed.

Lemma hasRoute_true vehicle :
  hasRoute vehicle = true ->
  exists points, route vehicle = Some points /\ (2 < length_of points)%Z.
Proof.
  unfold hasRoute. destruct (route vehicle) as [points|]; [|discriminate].
  intros H. apply Z.ltb_lt in H. eauto.
Qed.

Section Properties.

Variable calculateNewPosition : Position -> R -> R -> Position.
Variable calculateVehicleStatus : Z -> Vehicle -> VehicleStatus.


(** With a route of more than 2 points the move heads for a waypoint of
    the route and succeeds whether or not there is a destination; it
    draws one random number, and logs its progress when that is under
    0.1. *)
Lemma moveTowardTarget_with_route vehicle km w :
  hasRoute vehicle = true ->
  exists points p,
    route vehicle = Some points /\
    nth_error points (Z.to_nat (routeTargetIndex vehicle points)) = Some p /\
    let h := bearingTo (position vehicle) (lat p) (lng p) in
    moveTowardTarget calculateNewPosition vehicle km w
    = (Returned (calculateNewPosition (position vehicle) km h, h),
       mkWorld (draws w) (S (cursor w)) (clock w)
         (if draws w (cursor w) <? 0.1
          then console w ++
               [FollowingRoute (id vehicle)
                  (findClosestRoutePoint (position vehicle) (Some points))
                  (length points) (routeTargetIndex vehicle points) h]
          else console w)).
Proof.
  intros Hhas. destruct (hasRoute_true _ Hhas) as (points & Hroute & Hlen).
  assert (Hne : points <> []).
  { intros ->. unfold length_of in Hlen. cbn in Hlen. lia. }
  pose proof (findClosestRoutePoint_range (position vehicle) points Hne) as Hcur.
  destruct (getNextRouteTarget_on_route vehicle points _ Hroute Hne (proj1 Hcur))
    as (p & Hp & Htarget).
  exists points, p. split; [exact Hroute|]. split; [exact Hp|].
  unfold moveTowardTarget. rewrite Hhas.
  unfold bind at 1. rewrite Hroute, Htarget. cbn [index target_lat target_lng].
  unfold routeLength. rewrite Hroute.
  assert (Hlt : (Z.min (findClosestRoutePoint (position vehicle) (Some points) + 1)
                   (length_of points - 1) <? Z.of_nat (length points))%Z = true).
  { apply Z.ltb_lt. unfold length_of in *. lia. }
  rewrite Hlt.
  unfold bind, Math_random, console_log, ret, routeTargetIndex.
  destruct (_ <? 0.1); reflexivity.
Qed.

(** The half of C3 the code keeps: with a route of more than 2 points the
    move heads for the waypoint right after the closest one, or for the
    last waypoint when the closest one is the last; never for a later
    waypoint and never for the destination. *)
Lemma move_targets_next_waypoint vehicle km w :
  hasRoute vehicle = true ->
  exists points closest p,
    route vehicle = Some points /\
    nth_error points
      (Z.to_nat (findClosestRoutePoint (position vehicle) (Some points)))
    = Some closest /\
    (forall q, In q points ->
       distanceFrom (position vehicle) closest
       <= distanceFrom (position vehicle) q) /\
    nth_error points
      (Z.to_nat (Z.min (findClosestRoutePoint (position vehicle) (Some points) + 1)
                       (length_of points - 1)))
    = Some p /\
    let h := bearingTo (position vehicle) (lat p) (lng p) in
    fst (moveTowardTarget calculateNewPosition vehicle km w)
    = Returned (calculateNewPosition (position vehicle) km h, h).
Proof.
  intros Hhas.
  destruct (moveTowardTarget_with_route vehicle km w Hhas)
    as (points & p & Hroute & Hp & Hmove).
  destruct (hasRoute_true _ Hhas) as (points' & Hroute' & Hlen).
  rewrite Hroute in Hroute'. injection Hroute' as <-.
  assert (Hne : points <> []).
  { intros ->. unfold length_of in Hlen. cbn in Hlen. lia. }
  destruct (findClosestRoutePoint_closest (position vehicle) points Hne)
    as (closest & Hclosest & Hmin).
  exists points, closest, p.
  split; [exact Hroute|]. split; [exact Hclosest|]. split; [exact Hmin|].
  split; [exact Hp|].
  cbv zeta in Hmove. cbv zeta. rewrite Hmove. reflexivity.
Qed.

(** Without a usable route the move heads straight for the
    destination. *)
Lemma moveTowardTarget_direct vehicle d km w :
  hasRoute vehicle = false ->
  destination vehicle = Some d ->
  let h := bearingTo (position vehicle) (dest_lat d) (dest_lng d) in
  moveTowardTarget calculateNewPosition vehicle km w
  = (Returned (calculateNewPosition (position vehicle) km h, h),
     mkWorld (draws w) (cursor w) (clock w)
       (console w ++ [NoRoute (id vehicle) (routeLength vehicle)])).
Proof.
  intros Hhas Hd h.
  unfold moveTowardTarget. rewrite Hhas.
  unfold bind, console_log, destination_lat, destination_lng, ret.
  rewrite Hd. reflexivity.
Qed.

Lemma moveTowardTarget_direct_throws vehicle km w :
  hasRoute vehicle = false ->
  destination vehicle = None ->
  moveTowardTarget calculateNewPosition vehicle km w
  = (Thrown (TypeError "lat"),
     mkWorld (draws w) (cursor w) (clock w)
       (console w ++ [NoRoute (id vehicle) (routeLength vehicle)])).
Proof.
  intros Hhas Hd.
  unfold moveTowardTarget. rewrite Hhas.
  unfold bind, console_log, destination_lat, destination_lng, throw.
  rewrite Hd. reflexivity.
Qed.

(** With a destination the move always returns a new position and a
    heading, and writes no violation record. *)
Lemma moveTowardTarget_returns vehicle d km w :
  destination vehicle = Some d ->
  exists p h w',
    moveTowardTarget calculateNewPosition vehicle km w
    = (Returned (p, h), w') /\
    clock w' = clock w /\
    violations (console w') = violations (console w).
Proof.
  intros Hd. destruct (hasRoute vehicle) eqn:Hhas.
  - destruct (moveTowardTarget_with_route vehicle km w Hhas)
      as (points & p & _ & _ & Hrun).
    eexists _, _, _. split; [exact Hrun|]. cbn. split; [reflexivity|].
    destruct (_ <? 0.1); [|reflexivity].
    apply violations_app_quiet. reflexivity.
  - rewrite (moveTowardTarget_direct vehicle d km w Hhas Hd).
    eexists _, _, _. split; [reflexivity|]. cbn. split; [reflexivity|].
    apply violations_app_quiet. reflexivity.
Qed.

Lemma driftCargoTemperature_returns v w :
  exists v' w',
    driftCargoTemperature v w = (Returned v', w') /\
    sameMotion v v' /\ console w' = console w.
Proof.
  unfold driftCargoTemperature, bind, Math_random, ret.
  destruct (cargoTemperature v) as [t|].
  - eexists _, _. split; [reflexivity|]. cbn. unfold sameMotion. cbn. tauto.
  - eexists _, _. split; [reflexivity|]. unfold sameMotion. tauto.
Qed.

(** The update of a vehicle with a destination, stage by stage. *)
Lemma simulateGPSUpdate_returns vehicle d w :
  destination vehicle = Some d ->
  exists s w1 p h w2 v' w',
    rawSpeed vehicle w = (Returned s, w1) /\
    5 <= s <= 98 /\
    moveTowardTarget calculateNewPosition vehicle (distanceKm vehicle) w1
    = (Returned (p, h), w2) /\
    simulateGPSUpdate calculateNewPosition calculateVehicleStatus vehicle w
    = (Returned v', w') /\
    sameMotion (assembled (clock w) vehicle d s p h) v' /\
    violations (console w') = violations (console w).
Proof.
  intros Hd.
  destruct (rawSpeed_returns vehicle w) as (s & w1 & Hraw & Hs & Hc1 & Hv1).
  destruct (moveTowardTarget_returns vehicle d (distanceKm vehicle) w1 Hd)
    as (p & h & w2 & Hmove & Hc2 & Hv2).
  set (dist := flatEarthMetres (dest_lat d) (dest_lng d) (lat p) (lng p)).
  set (a := assembled (clock w) vehicle d s p h).
  destruct (driftCargoTemperature_returns
              (set_status (calculateVehicleStatus (clock w2) a) a) w2)
    as (v' & w' & Hdrift & Hsame & Hc3).
  exists s, w1, p, h, w2, v', w'.
  split; [exact Hraw|]. split; [exact Hs|]. split; [exact Hmove|].
  split.
  - subst a. unfold assembled in Hdrift. fold dist in Hdrift.
    rewrite Hd in Hdrift.
    unfold simulateGPSUpdate. unfold bind at 1. unfold new_Date at 1.
    unfold bind at 1. rewrite Hraw.
    unfold bind at 1. rewrite (speedLimitCheck_below _ _ _ (proj2 Hs)).
    unfold bind at 1. rewrite Hmove.
    unfold distanceToDestination, finalPosition, destination_lat,
      destination_lng, bind, ret, new_Date.
    rewrite Hd. cbv beta iota. fold dist.
    destruct (dist <? 100); cbv beta iota; exact Hdrift.
  - split.
    + unfold sameMotion in *. cbn in Hsame. exact Hsame.
    + rewrite Hc3, Hv2. exact Hv1.
Qed.

(** ** Speed bounds *)

Lemma arrivalSpeed_bounds dist s :
  5 <= s <= 98 -> 0 <= arrivalSpeed dist s <= 98.
Proof.
  intros Hs. unfold arrivalSpeed, Math_min, Rmin.
  destruct (dist <? 100); [lra|].
  destruct (dist <? 500); [|lra].
  destruct (Rle_dec s 20); lra.
Qed.

Lemma arrivalSpeed_near dist s :
  dist < 500 -> 5 <= s -> arrivalSpeed dist s <= 20.
Proof.
  intros Hd Hs. unfold arrivalSpeed, Math_min, Rmin.
  destruct (dist <? 100); [lra|].
  apply ltb_true in Hd. rewrite Hd.
  destruct (Rle_dec s 20); lra.
Qed.

Lemma arrivalSpeed_arrived dist s : dist < 100 -> arrivalSpeed dist s = 0.
Proof.
  intros Hd. unfold arrivalSpeed. apply ltb_true in Hd. rewrite Hd. reflexivity.
Qed.

(** C4: after a per-vehicle update the stored speed lies between 0 and
    100, whatever the input speed and whatever the random draws. *)
Theorem speed_within_hard_cap vehicle d w :
  destination vehicle = Some d ->
  exists v' w',
    simulateGPSUpdate calculateNewPosition calculateVehicleStatus vehicle w
    = (Returned v', w') /\
    0 <= currentSpeed v' <= 100.
Proof.
  intros Hd.
  destruct (simulateGPSUpdate_returns vehicle d w Hd)
    as (s & w1 & p & h & w2 & v' & w' & _ & Hs & _ & Hrun & Hsame & _).
  exists v', w'. split; [exact Hrun|].
  destruct Hsame as (_ & _ & _ & Hspeed & _). rewrite Hspeed. cbn.
  pose proof (arrivalSpeed_bounds
                (flatEarthMetres (dest_lat d) (dest_lng d) (lat p) (lng p)) s Hs).
  lra.
Qed.

(** C10: the speed reaching the speed-limit check is at most 98, the
    check leaves it as it is, and the speed the update stores is at most
    98: the cap at 100 never binds. *)
Theorem speed_never_exceeds_98 vehicle d w :
  destination vehicle = Some d ->
  exists s w1 v' w',
    rawSpeed vehicle w = (Returned s, w1) /\
    s <= 98 /\
    speedLimitCheck vehicle s w1 = (Returned s, w1) /\
    simulateGPSUpdate calculateNewPosition calculateVehicleStatus vehicle w
    = (Returned v', w') /\
    currentSpeed v' <= s /\
    currentSpeed v' <= 98.
Proof.
  intros Hd.
  destruct (simulateGPSUpdate_returns vehicle d w Hd)
    as (s & w1 & p & h & w2 & v' & w' & Hraw & Hs & _ & Hrun & Hsame & _).
  exists s, w1, v', w'.
  split; [exact Hraw|]. split; [lra|].
  split; [apply speedLimitCheck_below; lra|]. split; [exact Hrun|].
  destruct Hsame as (_ & _ & _ & Hspeed & _). rewrite Hspeed. cbn.
  set (dist := flatEarthMetres (dest_lat d) (dest_lng d) (lat p) (lng p)).
  pose proof (arrivalSpeed_bounds dist s Hs) as Hb.
  split; [|lra].
  unfold arrivalSpeed, Math_min, Rmin.
  destruct (dist <? 100); [lra|].
  destruct (dist <? 500); [|lra].
  destruct (Rle_dec s 20); lra.
Qed.

(** ** Heading *)

Lemma normalizeHeading_range h : 0 <= normalizeHeading h < 360.
Proof.
  unfold normalizeHeading. apply rem_nonneg.
  pose proof (rem_abs h). lra.
Qed.

(** C8: the heading stored by the update lies in the interval from 0
    (included) to 360 (excluded). *)
Theorem heading_normalized vehicle d w :
  destination vehicle = Some d ->
  exists v' w',
    simulateGPSUpdate calculateNewPosition calculateVehicleStatus vehicle w
    = (Returned v', w') /\
    0 <= heading v' < 360.
Proof.
  intros Hd.
  destruct (simulateGPSUpdate_returns vehicle d w Hd)
    as (s & w1 & p & h & w2 & v' & w' & _ & _ & _ & Hrun & Hsame & _).
  exists v', w'. split; [exact Hrun|].
  destruct Hsame as (_ & _ & _ & _ & Hheading & _). rewrite Hheading. cbn.
  apply normalizeHeading_range.
Qed.

(** ** Route *)

(** C9: the update returns the vehicle with the route it was given. *)
Theorem route_preserved vehicle d w :
  destination vehicle = Some d ->
  exists v' w',
    simulateGPSUpdate calculateNewPosition calculateVehicleStatus vehicle w
    = (Returned v', w') /\
    route v' = route vehicle.
Proof.
  intros Hd.
  destruct (simulateGPSUpdate_returns vehicle d w Hd)
    as (s & w1 & p & h & w2 & v' & w' & _ & _ & _ & Hrun & Hsame & _).
  exists v', w'. split; [exact Hrun|].
  destruct Hsame as (_ & _ & _ & _ & _ & _ & _ & Hroute). exact Hroute.
Qed.

(** ** Arrival *)

(** C5: with [p] the newly computed position and [dist] its flat-earth
    distance to the destination, under 100 metres the update stores the
    destination coordinates and speed 0, and under 500 metres a speed of
    at most 20; from 100 metres on the position stored is [p]. *)
Theorem arrival_snap vehicle d w :
  destination vehicle = Some d ->
  exists s w1 p h w2 v' w',
    rawSpeed vehicle w = (Returned s, w1) /\
    moveTowardTarget calculateNewPosition vehicle (distanceKm vehicle) w1
    = (Returned (p, h), w2) /\
    simulateGPSUpdate calculateNewPosition calculateVehicleStatus vehicle w
    = (Returned v', w') /\
    let dist := flatEarthMetres (dest_lat d) (dest_lng d) (lat p) (lng p) in
    (dist < 100 ->
       position v' = mkPosition (dest_lat d) (dest_lng d) /\
       currentSpeed v' = 0) /\
    (dist < 500 -> currentSpeed v' <= 20) /\
    (100 <= dist -> position v' = p).
Proof.
  intros Hd.
  destruct (simulateGPSUpdate_returns vehicle d w Hd)
    as (s & w1 & p & h & w2 & v' & w' & Hraw & Hs & Hmove & Hrun & Hsame & _).
  exists s, w1, p, h, w2, v', w'.
  split; [exact Hraw|]. split; [exact Hmove|]. split; [exact Hrun|].
  destruct Hsame as (_ & Hpos & _ & Hspeed & _).
  rewrite Hpos, Hspeed. cbn.
  set (dist := flatEarthMetres (dest_lat d) (dest_lng d) (lat p) (lng p)).
  split; [|split].
  - intros Hlt. rewrite (arrivalSpeed_arrived dist s Hlt).
    apply ltb_true in Hlt. rewrite Hlt. split; reflexivity.
  - intros Hlt. apply arrivalSpeed_near; lra.
  - intros Hge. apply ltb_false in Hge. rewrite Hge. reflexivity.
Qed.

(** ** Status history *)

Lemma slice_last_length {A} n (xs : list A) : (length (slice_last n xs) <= n)%nat.
Proof. unfold slice_last. rewrite length_skipn. lia. Qed.

Lemma slice_last_suffix {A} n (xs : list A) :
  xs = firstn (length xs - n) xs ++ slice_last n xs.
Proof. unfold slice_last. symmetry. apply firstn_skipn. Qed.

Lemma slice_last_snoc {A} n (xs : list A) (e : A) :
  slice_last (S n) (xs ++ [e]) = slice_last n xs ++ [e].
Proof.
  unfold slice_last. rewrite length_app. cbn [length].
  replace (length xs + 1 - S n)%nat with (length xs - n)%nat by lia.
  rewrite skipn_app.
  replace (length xs - n - length xs)%nat with 0%nat by lia.
  reflexivity.
Qed.

(** C6: the update appends to the history the vehicle came with (none
    counts as empty) the snapshot of the vehicle as it was given: status,
    speed and position before the update, stamped with the time of the
    update.  It then keeps the last 450 entries.  With fewer than 450 old
    entries all of them are kept, in order, before the new one; from 450
    old entries on only the oldest are dropped, the 449 most recent stay in
    order before the new entry, and exactly 450 entries remain. *)
Theorem history_snapshot_and_bound vehicle d w :
  destination vehicle = Some d ->
  exists v' w' kept,
    simulateGPSUpdate calculateNewPosition calculateVehicleStatus vehicle w
    = (Returned v', w') /\
    let entry :=
      mkEntry (clock w) (status vehicle) (currentSpeed vehicle)
        (position vehicle) in
    let old :=
      match statusHistory vehicle with
      | Some entries => entries
      | None => []
      end in
    let appended := old ++ [entry] in
    statusHistory v' = Some kept /\
    kept = slice_last 450 appended /\
    appended = firstn (length appended - 450) appended ++ kept /\
    ((length old < 450)%nat -> kept = old ++ [entry]) /\
    ((450 <= length old)%nat ->
     kept = skipn (length old - 449) old ++ [entry] /\
     length kept = 450%nat) /\
    (length kept <= 450)%nat.
Proof.
  intros Hd.
  destruct (simulateGPSUpdate_returns vehicle d w Hd)
    as (s & w1 & p & h & w2 & v' & w' & _ & _ & _ & Hrun & Hsame & _).
  exists v', w', (updatedHistory (clock w) vehicle).
  split; [exact Hrun|].
  destruct Hsame as (_ & _ & _ & _ & _ & _ & Hhist & _).
  rewrite Hhist. cbn [statusHistory assembled].
  unfold updatedHistory, newHistoryEntry, existingHistory.
  set (old := match statusHistory vehicle with
              | Some entries => entries
              | None => []
              end).
  set (entry := mkEntry (clock w) (status vehicle) (currentSpeed vehicle)
                  (position vehicle)).
  cbv zeta.
  split; [reflexivity|]. split; [reflexivity|].
  split; [apply slice_last_suffix|].
  assert (Hsnoc : slice_last 450 (old ++ [entry])
                  = skipn (length old - 449) old ++ [entry])
    by apply (slice_last_snoc 449 old entry).
  split; [|split].
  - intros Hlt. rewrite Hsnoc.
    replace (length old - 449)%nat with 0%nat by lia. reflexivity.
  - intros Hge. split; [exact Hsnoc|].
    rewrite Hsnoc, length_app, length_skipn. cbn [length]. lia.
  - apply slice_last_length.
Qed.

(** ** A vehicle without destination *)

Lemma distanceToDestination_throws vehicle p w :
  destination vehicle = None ->
  distanceToDestination vehicle p w = (Thrown (TypeError "lat"), w).
Proof.
  intros Hd. unfold distanceToDestination, bind, destination_lat, throw.
  rewrite Hd. reflexivity.
Qed.

Lemma update_without_destination vehicle w :
  destination vehicle = None ->
  exists w',
    simulateGPSUpdate calculateNewPosition calculateVehicleStatus vehicle w
    = (Thrown (TypeError "lat"), w') /\
    (cursor w + 4 <= cursor w')%nat /\
    violations (console w') = violations (console w).
Proof.
  intros Hd.
  destruct (rawSpeed_returns vehicle w) as (s & w1 & Hraw & Hs & _ & Hv1).
  pose proof (rawSpeed_cursor vehicle w) as Hcur. rewrite Hraw in Hcur.
  cbn [snd] in Hcur.
  unfold simulateGPSUpdate. unfold bind at 1. unfold new_Date at 1.
  unfold bind at 1. rewrite Hraw.
  unfold bind at 1. rewrite (speedLimitCheck_below _ _ _ (proj2 Hs)).
  unfold bind at 1.
  destruct (hasRoute vehicle) eqn:Hhas.
  - destruct (moveTowardTarget_with_route vehicle (distanceKm vehicle) w1 Hhas)
      as (points & p & _ & _ & Hmove).
    cbv zeta in Hmove. rewrite Hmove.
    unfold bind at 1. rewrite (distanceToDestination_throws _ _ _ Hd).
    eexists. split; [reflexivity|]. cbn. split; [lia|].
    destruct (_ <? 0.1); [|exact Hv1].
    rewrite violations_app_quiet; [exact Hv1|reflexivity].
  - rewrite (moveTowardTarget_direct_throws vehicle _ w1 Hhas Hd).
    eexists. split; [reflexivity|]. cbn. split; [lia|].
    rewrite violations_app_quiet; [exact Hv1|reflexivity].
Qed.

(** C7 as the code has it: the update of a vehicle without destination
    throws the [TypeError] of reading [lat] of the missing destination and
    returns no vehicle; by then it has drawn at least four random numbers. *)
Theorem missing_destination_throws vehicle w :
  destination vehicle = None ->
  exists w',
    simulateGPSUpdate calculateNewPosition calculateVehicleStatus vehicle w
    = (Thrown (TypeError "lat"), w') /\
    (cursor w + 4 <= cursor w')%nat.
Proof.
  intros Hd.
  destruct (update_without_destination vehicle w Hd) as (w' & Hrun & Hcur & _).
  exists w'. split; [exact Hrun|exact Hcur].
Qed.

(** ** The speed-violation record *)

(** The warning of the speed-limit check cannot fire: whatever the vehicle
    and the random draws, the speed that reaches the check has been clamped
    to at most 98, the check returns it unchanged without a warning, and
    the update writes no speed-violation record. *)
Lemma no_speed_violation_emitted vehicle w :
  (exists s w1,
     rawSpeed vehicle w = (Returned s, w1) /\
     s <= 98 /\
     speedLimitCheck vehicle s w1 = (Returned s, w1)) /\
  violations
    (console
       (snd (simulateGPSUpdate calculateNewPosition calculateVehicleStatus
               vehicle w)))
  = violations (console w).
Proof.
  split.
  - destruct (rawSpeed_returns vehicle w) as (s & w1 & Hraw & Hs & _).
    exists s, w1. split; [exact Hraw|]. split; [lra|].
    apply speedLimitCheck_below. lra.
  - destruct (destination vehicle) as [d|] eqn:Hd.
    + destruct (simulateGPSUpdate_returns vehicle d w Hd)
        as (s & w1 & p & h & w2 & v' & w' & _ & _ & _ & Hrun & _ & Hv).
      rewrite Hrun. exact Hv.
    + destruct (update_without_destination vehicle w Hd) as (w' & Hrun & _ & Hv).
      rewrite Hrun. exact Hv.
Qed.

(** ** Any number of ticks *)

Lemma simulateAllVehicles_Forall (Q : Vehicle -> Prop) :
  (forall v w, hasDestination v ->
     exists v' w',
       simulateGPSUpdate calculateNewPosition calculateVehicleStatus v w
       = (Returned v', w') /\ Q v') ->
  forall vehicles w,
    Forall hasDestination vehicles ->
    exists vehicles' w',
      simulateAllVehicles calculateNewPosition calculateVehicleStatus vehicles w
      = (Returned vehicles', w') /\
      Forall Q vehicles'.
Proof.
  intros Hstep.
  induction vehicles as [|v rest IH]; intros w Hall.
  - exists [], w. split; [reflexivity|constructor].
  - inversion Hall as [|? ? Hv Hrest]; subst.
    destruct (Hstep v w Hv) as (v' & w1 & Hrun & Hq).
    destruct (IH w1 Hrest) as (rest' & w2 & Hruns & Hqs).
    exists (v' :: rest'), w2. split; [|constructor; assumption].
    cbn [simulateAllVehicles]. unfold bind at 1. rewrite Hrun.
    unfold bind at 1. rewrite Hruns. reflexivity.
Qed.

Lemma runSimulation_Forall (Q : Vehicle -> Prop) :
  (forall v w, hasDestination v ->
     exists v' w',
       simulateGPSUpdate calculateNewPosition calculateVehicleStatus v w
       = (Returned v', w') /\ Q v') ->
  (forall v, Q v -> hasDestination v) ->
  forall ticks vehicles w,
    Forall hasDestination vehicles ->
    Forall Q
      (fst (runSimulation calculateNewPosition calculateVehicleStatus
              (S ticks) vehicles w)).
Proof.
  intros Hstep Hdest.
  induction ticks as [|n IH]; intros vehicles w Hall.
  - cbn [runSimulation]. unfold intervalCallback.
    destruct (simulateAllVehicles_Forall Q Hstep vehicles (elapse 4000 w) Hall)
      as (vs' & w' & Hrun & Hq).
    rewrite Hrun. exact Hq.
  - change (runSimulation calculateNewPosition calculateVehicleStatus
              (S (S n)) vehicles w)
      with (let '(updatedVehicles, w') :=
              intervalCallback calculateNewPosition calculateVehicleStatus
                vehicles (elapse 4000 w) in
            runSimulation calculateNewPosition calculateVehicleStatus
              (S n) updatedVehicles w').
    unfold intervalCallback.
    destruct (simulateAllVehicles_Forall Q Hstep vehicles (elapse 4000 w) Hall)
      as (vs' & w' & Hrun & Hq).
    rewrite Hrun. apply IH.
    eapply Forall_impl; [exact Hdest|exact Hq].
Qed.

Lemma hasDestination_Some v : hasDestination v -> exists d, destination v = Some d.
Proof.
  unfold hasDestination. destruct (destination v) as [d|]; [eauto|congruence].
Qed.

Lemma update_keeps_invariants v w :
  hasDestination v ->
  exists v' w',
    simulateGPSUpdate calculateNewPosition calculateVehicleStatus v w
    = (Returned v', w') /\
    (hasDestination v' /\
     0 <= currentSpeed v' <= 98 /\
     0 <= heading v' < 360 /\
     (length (existingHistory v') <= 450)%nat).
Proof.
  intros Hv. destruct (hasDestination_Some v Hv) as (d & Hd).
  destruct (simulateGPSUpdate_returns v d w Hd)
    as (s & w1 & p & h & w2 & v' & w' & _ & Hs & _ & Hrun & Hsame & _).
  exists v', w'. split; [exact Hrun|].
  destruct Hsame as (_ & _ & Hdest & Hspeed & Hheading & _ & Hhist & _).
  cbn in Hdest, Hspeed, Hheading, Hhist.
  split; [unfold hasDestination; rewrite Hdest; exact Hv|].
  split; [rewrite Hspeed; apply arrivalSpeed_bounds; exact Hs|].
  split; [rewrite Hheading; apply normalizeHeading_range|].
  unfold existingHistory. rewrite Hhist. apply slice_last_length.
Qed.

(** After any number of ticks, at least one, every vehicle of the store
    has a speed between 0 and 98, a heading from 0 up to 360 and at most
    450 history entries. *)
Lemma invariants_after_ticks ticks vehicles w :
  Forall hasDestination vehicles ->
  Forall (fun v => 0 <= currentSpeed v <= 98 /\
                   0 <= heading v < 360 /\
                   (length (existingHistory v) <= 450)%nat)
    (fst (runSimulation calculateNewPosition calculateVehicleStatus
            (S ticks) vehicles w)).
Proof.
  intros Hall.
  pose proof (runSimulation_Forall _ update_keeps_invariants
                (fun v H => proj1 H) ticks vehicles w Hall) as H.
  eapply Forall_impl; [|exact H]. intros v (_ & Hv). exact Hv.
Qed.

End Properties.

(** ** Concrete runs *)

Lemma flatEarthMetres_same_lng a b c :
  flatEarthMetres a b c b = Rabs (a - c) * 111000.
Proof.
  unfold flatEarthMetres, Math_sqrt, Math_pow2.
  replace (((a - c) * 111000) ^ 2 + ((b - b) * 111000) ^ 2)
    with (Rsqr ((a - c) * 111000)) by (unfold Rsqr; ring).
  rewrite sqrt_Rsqr_abs, Rabs_mult.
  rewrite (Rabs_right 111000) by lra. reflexivity.
Qed.

Lemma closest_at_end_of_route :
  findClosestRoutePoint (mkPosition 2 0) (Some threePoints) = 2%Z.
Proof.
  unfold findClosestRoutePoint, threePoints.
  cbn [forEach_closest lat lng snd fst].
  rewrite !flatEarthMetres_same_lng.
  replace (Rabs (0 - 2)) with 2 by (rewrite Rabs_left; lra).
  replace (Rabs (1 - 2)) with 1 by (rewrite Rabs_left; lra).
  replace (Rabs (2 - 2)) with 0 by (rewrite Rabs_right; lra).
  cbn [Num.lt_ext snd].
  rewrite (proj2 (ltb_true (1 * 111000) (2 * 111000))) by lra.
  cbn [Num.lt_ext snd].
  rewrite (proj2 (ltb_true (0 * 111000) (1 * 111000))) by lra.
  reflexivity.
Qed.

Lemma closest_at_start_of_route :
  findClosestRoutePoint (mkPosition 0 0) (Some threePoints) = 0%Z.
Proof.
  unfold findClosestRoutePoint, threePoints.
  cbn [forEach_closest lat lng snd fst].
  rewrite !flatEarthMetres_same_lng.
  replace (Rabs (0 - 0)) with 0 by (rewrite Rabs_right; lra).
  replace (Rabs (1 - 0)) with 1 by (rewrite Rabs_right; lra).
  replace (Rabs (2 - 0)) with 2 by (rewrite Rabs_right; lra).
  cbn [Num.lt_ext snd].
  rewrite (proj2 (ltb_false (1 * 111000) (0 * 111000))) by lra.
  cbn [Num.lt_ext snd].
  rewrite (proj2 (ltb_false (2 * 111000) (0 * 111000))) by lra.
  reflexivity.
Qed.

Lemma atan2_origin : Math_atan2 0 0 = 0.
Proof.
  unfold Math_atan2.
  destruct (Rlt_dec 0 0) as [H|_]; [lra|]. reflexivity.
Qed.

Lemma atan2_north x : 0 < x -> Math_atan2 0 x = 0.
Proof.
  intros Hx. unfold Math_atan2.
  destruct (Rlt_dec 0 x) as [_|H]; [|lra].
  replace (0 / x) with 0 by (unfold Rdiv; ring). apply atan_0.
Qed.

Lemma atan2_diagonal x : 0 < x -> Math_atan2 x x = PI / 4.
Proof.
  intros Hx. unfold Math_atan2.
  destruct (Rlt_dec 0 x) as [_|H]; [|lra].
  replace (x / x) with 1 by (field; lra). apply atan_1.
Qed.

Lemma trunc_1 : Num.trunc 1 = 1%Z.
Proof.
  unfold Num.trunc. destruct (Rle_dec 0 1) as [_|H]; [|lra].
  symmetry. apply Int_part_spec. lra.
Qed.



Lemma normalizeHeading_small h : 0 <= h < 360 -> normalizeHeading h = h.
Proof.
  intros Hh. unfold normalizeHeading.
  assert (Hr : h %% 360 = h).
  { unfold Num.rem.
    assert (Ht : Num.trunc (h / 360) = 0%Z).
    { unfold Num.trunc. destruct (Rle_dec 0 (h / 360)) as [_|H]; [|lra].
      symmetry. apply Int_part_spec. lra. }
    rewrite Ht. lra. }
  rewrite Hr. unfold Num.rem.
  assert (Ht : Num.trunc ((h + 360) / 360) = 1%Z).
  { unfold Num.trunc. destruct (Rle_dec 0 ((h + 360) / 360)) as [_|H]; [|lra].
    symmetry. apply Int_part_spec. lra. }
  rewrite Ht. lra.
Qed.

Lemma bearing_to_self position : bearingTo position (lat position) (lng position) = 0.
Proof.
  unfold bearingTo. rewrite !Rminus_diag, atan2_origin.
  unfold Rdiv. rewrite !Rmult_0_l. reflexivity.
Qed.

Lemma bearing_north position to_lat :
  lat position < to_lat -> bearingTo position to_lat (lng position) = 0.
Proof.
  intros H. unfold bearingTo. rewrite Rminus_diag, atan2_north by lra.
  unfold Rdiv. rewrite !Rmult_0_l. reflexivity.
Qed.

Lemma bearing_north_east position k :
  0 < k -> bearingTo position (lat position + k) (lng position + k) = 45.
Proof.
  intros H. unfold bearingTo, Math_PI.
  replace (lat position + k - lat position) with k by ring.
  replace (lng position + k - lng position) with k by ring.
  rewrite atan2_diagonal by exact H.
  field. apply PI_neq0.
Qed.

(** C3 at the end of the route: the closest point of the route of
    [endOfRouteVehicle] is the last one, index 2; the target is then that
    same waypoint, not the destination, and the update stores heading 0,
    the bearing of the vehicle to its own position, while the destination
    lies at bearing 45. *)
Theorem end_of_route_targets_last_waypoint :
  findClosestRoutePoint (position endOfRouteVehicle) (route endOfRouteVehicle)
  = 2%Z /\
  (forall w,
     getNextRouteTarget endOfRouteVehicle 2 w
     = (Returned (Some (mkTarget 2 0 2)), w)) /\
  normalizeHeading (bearingTo (position endOfRouteVehicle) 3 1) = 45 /\
  forall calculateNewPosition calculateVehicleStatus w,
  exists v' w',
    simulateGPSUpdate calculateNewPosition calculateVehicleStatus
      endOfRouteVehicle w = (Returned v', w') /\
    heading v' = 0.
Proof.
  split; [exact closest_at_end_of_route|].
  split; [intros w; reflexivity|].
  split.
  - change (position endOfRouteVehicle) with (mkPosition 2 0).
    replace 3 with (lat (mkPosition 2 0) + 1) by (cbn; lra).
    replace 1 with (lng (mkPosition 2 0) + 1) at 2 by (cbn; lra).
    rewrite bearing_north_east by lra.
    apply normalizeHeading_small. lra.
  - intros cnp cvs w.
    destruct (simulateGPSUpdate_returns cnp cvs endOfRouteVehicle _ w eq_refl)
      as (s & w1 & p & h & w2 & v' & w' & _ & _ & Hmove & Hrun & Hsame & _).
    exists v', w'. split; [exact Hrun|].
    destruct Hsame as (_ & _ & _ & _ & Hheading & _). rewrite Hheading. cbn.
    destruct (moveTowardTarget_with_route cnp endOfRouteVehicle
                (distanceKm endOfRouteVehicle) w1 eq_refl)
      as (points & q & Hroute & Hq & Hmove').
    injection Hroute as <-.
    unfold routeTargetIndex in Hq.
    change (position endOfRouteVehicle) with (mkPosition 2 0) in Hq.
    rewrite closest_at_end_of_route in Hq.
    injection Hq as <-.
    cbv zeta in Hmove'. rewrite Hmove in Hmove'.
    injection Hmove' as _ Hh _. rewrite Hh.
    change (position endOfRouteVehicle) with (mkPosition 2 0).
    pose proof (bearing_to_self (mkPosition 2 0)) as Hself.
    cbn [lat lng] in *. rewrite Hself.
    apply normalizeHeading_small. lra.
Qed.

(** C1 at the scenario vehicle (40 km/h, no route): the distance handed
    to [calculateNewPosition] is the distance covered in 2 seconds,
    40 * (2 / 3600) km, not 40 * (4 / 3600) km, although the timer fires
    every 4 seconds. *)
Theorem scenario_moves_two_seconds_worth :
  distanceKm scenarioVehicle = 40 * (2 / 3600) /\
  distanceKm scenarioVehicle <> 40 * (4 / 3600) /\
  forall calculateNewPosition calculateVehicleStatus w,
  exists v' w',
    simulateGPSUpdate calculateNewPosition calculateVehicleStatus
      scenarioVehicle w = (Returned v', w') /\
    let h := bearingTo (position scenarioVehicle) 12.98 77.60 in
    let p := calculateNewPosition (position scenarioVehicle) (40 * (2 / 3600)) h in
    (100 <= flatEarthMetres 12.98 77.60 (lat p) (lng p) -> position v' = p).
Proof.
  assert (Hkm : distanceKm scenarioVehicle = 40 * (2 / 3600))
    by (unfold distanceKm; cbn [currentSpeed scenarioVehicle]; lra).
  split; [exact Hkm|]. split; [rewrite Hkm; lra|].
  intros cnp cvs w.
  destruct (simulateGPSUpdate_returns cnp cvs scenarioVehicle mgRoad w eq_refl)
    as (s & w1 & p & h & w2 & v' & w' & _ & _ & Hmove & Hrun & Hsame & _).
  exists v', w'. split; [exact Hrun|].
  rewrite (moveTowardTarget_direct cnp scenarioVehicle mgRoad _ w1 eq_refl eq_refl)
    in Hmove.
  injection Hmove as Hp Hh _.
  destruct Hsame as (_ & Hpos & _). cbn [position assembled] in Hpos.
  rewrite Hkm in Hp. cbn [dest_lat dest_lng mgRoad] in Hp, Hh, Hpos.
  intros h0 p0 Hfar. subst h0 p0.
  change (position scenarioVehicle) with (mkPosition 12.97 77.59) in *.
  rewrite Hp in *. apply ltb_false in Hfar.
  rewrite Hpos, Hfar. reflexivity.
Qed.

(** C7 refuted at [lostVehicle]: before it fails on the missing
    destination the update draws five random numbers, takes point 1 of the
    route as its target and logs the heading computed for it. *)
Lemma lost_vehicle_follows_route_before_failing :
  destination lostVehicle = None /\
  simulateGPSUpdate calculateNewPosition_flat calculateVehicleStatus_schedule
    lostVehicle chattyWorld
  = (Thrown (TypeError "lat"),
     mkWorld (draws chattyWorld) 5 0 [FollowingRoute "v4" 0 3 1 0]).
Proof.
  split; [reflexivity|].
  unfold simulateGPSUpdate. unfold bind at 1. unfold new_Date at 1.
  unfold bind at 1.
  rewrite rawSpeed_calm by (cbn; lra).
  unfold bind at 1.
  rewrite speedLimitCheck_below by apply clamp_5_98.
  unfold bind at 1.
  destruct (moveTowardTarget_with_route calculateNewPosition_flat lostVehicle
              (distanceKm lostVehicle)
              (mkWorld (draws chattyWorld) (4 + cursor chattyWorld)
                 (clock chattyWorld) (console chattyWorld)) eq_refl)
    as (points & q & Hroute & Hq & Hmove).
  injection Hroute as <-.
  unfold routeTargetIndex in Hq, Hmove.
  change (position lostVehicle) with (mkPosition 0 0) in Hq, Hmove.
  rewrite closest_at_start_of_route in Hq, Hmove.
  injection Hq as <-.
  pose proof (bearing_north (mkPosition 0 0) 1) as Hnorth.
  cbn [lat lng] in Hnorth, Hmove. rewrite Hnorth in Hmove by lra.
  cbv zeta in Hmove. rewrite Hmove.
  unfold bind at 1. rewrite distanceToDestination_throws by reflexivity.
  cbn [draws cursor clock console chattyWorld plus Nat.eqb].
  rewrite (proj2 (ltb_true 0 0.1)) by lra.
  reflexivity.
Qed.

(** ** Witnesses *)

Lemma speed_within_hard_cap_witness :
  destination scenarioVehicle = Some mgRoad /\
  exists v' w',
    simulateGPSUpdate calculateNewPosition_flat calculateVehicleStatus_schedule
      scenarioVehicle calmWorld = (Returned v', w') /\
    0 <= currentSpeed v' <= 100.
Proof.
  split; [reflexivity|].
  apply (speed_within_hard_cap calculateNewPosition_flat
           calculateVehicleStatus_schedule scenarioVehicle mgRoad calmWorld).
  reflexivity.
Defined.

Lemma speed_never_exceeds_98_witness :
  destination scenarioVehicle = Some mgRoad /\
  exists s w1 v' w',
    rawSpeed scenarioVehicle calmWorld = (Returned s, w1) /\
    s <= 98 /\
    speedLimitCheck scenarioVehicle s w1 = (Returned s, w1) /\
    simulateGPSUpdate calculateNewPosition_flat calculateVehicleStatus_schedule
      scenarioVehicle calmWorld = (Returned v', w') /\
    currentSpeed v' <= s /\
    currentSpeed v' <= 98.
Proof.
  split; [reflexivity|].
  apply (speed_never_exceeds_98 calculateNewPosition_flat
           calculateVehicleStatus_schedule scenarioVehicle mgRoad calmWorld).
  reflexivity.
Defined.

Lemma heading_normalized_witness :
  destination endOfRouteVehicle
  = Some (mkDestination 3 1 "Whitefield, Bangalore, Karnataka") /\
  exists v' w',
    simulateGPSUpdate calculateNewPosition_flat calculateVehicleStatus_schedule
      endOfRouteVehicle chattyWorld = (Returned v', w') /\
    0 <= heading v' < 360.
Proof.
  split; [reflexivity|].
  apply (heading_normalized calculateNewPosition_flat
           calculateVehicleStatus_schedule endOfRouteVehicle
           (mkDestination 3 1 "Whitefield, Bangalore, Karnataka") chattyWorld).
  reflexivity.
Defined.

Lemma route_preserved_witness :
  destination endOfRouteVehicle
  = Some (mkDestination 3 1 "Whitefield, Bangalore, Karnataka") /\
  exists v' w',
    simulateGPSUpdate calculateNewPosition_flat calculateVehicleStatus_schedule
      endOfRouteVehicle calmWorld = (Returned v', w') /\
    route v' = Some threePoints.
Proof.
  split; [reflexivity|].
  apply (route_preserved calculateNewPosition_flat
           calculateVehicleStatus_schedule endOfRouteVehicle
           (mkDestination 3 1 "Whitefield, Bangalore, Karnataka") calmWorld).
  reflexivity.
Defined.

(** A vehicle 50 metres from its destination is put on the destination
    and stopped. *)
Lemma arrival_snap_witness :
  destination arrivingVehicle = Some mgRoad /\
  exists v' w',
    simulateGPSUpdate calculateNewPosition_flat calculateVehicleStatus_schedule
      arrivingVehicle calmWorld = (Returned v', w') /\
    position v' = mkPosition 12.98 77.60 /\
    currentSpeed v' = 0.
Proof.
  split; [reflexivity|].
  destruct (arrival_snap calculateNewPosition_flat
              calculateVehicleStatus_schedule arrivingVehicle mgRoad calmWorld
              eq_refl)
    as (s & w1 & p & h & w2 & v' & w' & _ & Hmove & Hrun & Hnear & _).
  exists v', w'. split; [exact Hrun|].
  rewrite (moveTowardTarget_direct calculateNewPosition_flat arrivingVehicle
             mgRoad _ w1 eq_refl eq_refl) in Hmove.
  injection Hmove as Hp _ _.
  apply Hnear. rewrite <- Hp.
  unfold calculateNewPosition_flat, distanceKm.
  cbn [lat lng position currentSpeed arrivingVehicle dest_lat dest_lng mgRoad].
  replace (12.98 - 50 / 111000 + 0 / 3600 * 2 * _ / 111)
    with (12.98 - 50 / 111000) by (unfold Rdiv; ring).
  replace (77.60 + 0 / 3600 * 2 * _ / _) with 77.60 by (unfold Rdiv; ring).
  rewrite flatEarthMetres_same_lng.
  rewrite Rabs_right by lra. lra.
Defined.

(** A vehicle that comes with 450 entries loses its oldest one. *)
Lemma history_snapshot_and_bound_witness :
  destination veteranVehicle = Some mgRoad /\
  exists v' w' kept,
    simulateGPSUpdate calculateNewPosition_flat calculateVehicleStatus_schedule
      veteranVehicle busyWorld = (Returned v', w') /\
    statusHistory v' = Some kept /\
    kept
    = skipn 1 fullHistory
      ++ [mkEntry 1800000 on_time 40 (mkPosition 12.97 77.59)] /\
    length kept = 450%nat.
Proof.
  split; [reflexivity|].
  destruct (history_snapshot_and_bound calculateNewPosition_flat
              calculateVehicleStatus_schedule veteranVehicle mgRoad busyWorld
              eq_refl)
    as (v' & w' & kept & Hrun & Hkept & _ & _ & _ & Hfull & _).
  exists v', w', kept. split; [exact Hrun|]. split; [exact Hkept|].
  assert (Hlen : length fullHistory = 450%nat)
    by (unfold fullHistory; rewrite length_map, length_seq; reflexivity).
  cbn [statusHistory veteranVehicle] in Hfull.
  rewrite Hlen in Hfull. apply Hfull. lia.
Defined.

Lemma missing_destination_throws_witness :
  destination lostVehicle = None /\
  exists w',
    simulateGPSUpdate calculateNewPosition_flat calculateVehicleStatus_schedule
      lostVehicle chattyWorld = (Thrown (TypeError "lat"), w') /\
    (cursor chattyWorld + 4 <= cursor w')%nat.
Proof.
  split; [reflexivity|].
  apply (missing_destination_throws calculateNewPosition_flat
           calculateVehicleStatus_schedule lostVehicle chattyWorld).
  reflexivity.
Defined.

(** * Further properties *)

(** ** Worlds and draws *)

(** A world whose draws are what [Math.random] can return. *)
Lemma rawSpeed_world (v : Vehicle) (w : World) :
  draws (snd (rawSpeed v w)) = draws w /\
  clock (snd (rawSpeed v w)) = clock w /\
  cursor (snd (rawSpeed v w))
  = (cursor w + 4 + (if (draws w (3 + cursor w) <? 0.02)%R then 1 else 0))%nat.
Proof.
  unfold rawSpeed, bind, Math_random, console_log, ret. cbn.
  destruct (_ <? 0.02); cbn; repeat split; lia.
Qed.

Lemma driftCargoTemperature_eval (v : Vehicle) (w : World) :
  driftCargoTemperature v w
  = match cargoTemperature v with
    | Some t =>
        (Returned
           (set_cargoTemperature
              (Some (Math_max 0
                       (Math_min 10 (t + (draws w (cursor w) - 0.5) * 0.5))))
              v),
         mkWorld (draws w) (S (cursor w)) (clock w) (console w))
    | None => (Returned v, w)
    end.
Proof.
  unfold driftCargoTemperature. destruct (cargoTemperature v); reflexivity.
Qed.

Section MoreProperties.

Variable calculateNewPosition : Position -> R -> R -> Position.
Variable calculateVehicleStatus : Z -> Vehicle -> VehicleStatus.

(** The update of a vehicle with a destination, once the speed stage
    and the move are known. *)
Lemma simulateGPSUpdate_unfolded vehicle d w s w1 p h w2 :
  destination vehicle = Some d ->
  rawSpeed vehicle w = (Returned s, w1) ->
  s <= 98 ->
  moveTowardTarget calculateNewPosition vehicle (distanceKm vehicle) w1
  = (Returned (p, h), w2) ->
  simulateGPSUpdate calculateNewPosition calculateVehicleStatus vehicle w
  = driftCargoTemperature
      (set_status
         (calculateVehicleStatus (clock w2)
            (assembled (clock w) vehicle d s p h))
         (assembled (clock w) vehicle d s p h))
      w2.
Proof.
  intros Hd Hraw Hs Hmove.
  set (dist := flatEarthMetres (dest_lat d) (dest_lng d) (lat p) (lng p)).
  unfold assembled. fold dist. rewrite Hd.
  unfold simulateGPSUpdate. unfold bind at 1. unfold new_Date at 1.
  unfold bind at 1. rewrite Hraw.
  unfold bind at 1. rewrite (speedLimitCheck_below _ _ _ Hs).
  unfold bind at 1. rewrite Hmove.
  unfold distanceToDestination, finalPosition, destination_lat,
    destination_lng, bind, ret, new_Date.
  rewrite Hd. cbv beta iota. fold dist.
  destruct (dist <? 100); reflexivity.
Qed.

(** The move of a vehicle with a destination draws one number when the
    route has more than 2 points and none otherwise. *)
Lemma moveTowardTarget_world vehicle d km w :
  destination vehicle = Some d ->
  exists p h w',
    moveTowardTarget calculateNewPosition vehicle km w = (Returned (p, h), w') /\
    p = calculateNewPosition (position vehicle) km h /\
    draws w' = draws w /\ clock w' = clock w /\
    cursor w' = (cursor w + if hasRoute vehicle then 1 else 0)%nat.
Proof.
  intros Hd. destruct (hasRoute vehicle) eqn:Hhas.
  - destruct (moveTowardTarget_with_route calculateNewPosition vehicle km w Hhas)
      as (points & p & _ & _ & Hrun).
    eexists _, _, _. split; [exact Hrun|]. cbn. repeat split; lia.
  - rewrite (moveTowardTarget_direct calculateNewPosition vehicle d km w Hhas Hd).
    eexists _, _, _. split; [reflexivity|]. cbn. repeat split; lia.
Qed.

(** The stages of an update and its result. *)
Lemma simulateGPSUpdate_stages vehicle d w :
  destination vehicle = Some d ->
  exists s w1 p h w2,
    rawSpeed vehicle w = (Returned s, w1) /\
    5 <= s <= 98 /\
    moveTowardTarget calculateNewPosition vehicle (distanceKm vehicle) w1
    = (Returned (p, h), w2) /\
    p = calculateNewPosition (position vehicle) (distanceKm vehicle) h /\
    draws w2 = draws w /\ clock w2 = clock w /\
    cursor w2
    = (cursor w + 4 + (if (draws w (3 + cursor w) <? 0.02)%R then 1 else 0)
       + (if hasRoute vehicle then 1 else 0))%nat /\
    simulateGPSUpdate calculateNewPosition calculateVehicleStatus vehicle w
    = driftCargoTemperature
        (set_status
           (calculateVehicleStatus (clock w2)
              (assembled (clock w) vehicle d s p h))
           (assembled (clock w) vehicle d s p h))
        w2.
Proof.
  intros Hd.
  destruct (rawSpeed_returns vehicle w) as (s & w1 & Hraw & Hs & _).
  destruct (rawSpeed_world vehicle w) as (Hd1 & Hc1 & Hn1).
  rewrite Hraw in Hd1, Hc1, Hn1. cbn [snd] in Hd1, Hc1, Hn1.
  destruct (moveTowardTarget_world vehicle d (distanceKm vehicle) w1 Hd)
    as (p & h & w2 & Hmove & Hp & Hd2 & Hc2 & Hn2).
  exists s, w1, p, h, w2.
  split; [exact Hraw|]. split; [exact Hs|]. split; [exact Hmove|].
  split; [exact Hp|]. split; [congruence|]. split; [congruence|]. split; [lia|].
  apply (simulateGPSUpdate_unfolded vehicle d w s w1 p h w2);
    [exact Hd|exact Hraw|lra|exact Hmove].
Qed.

(** X9: The number of random draws of an update: four for the speed, one more
    for the highway burst, one for the route log when the route has more
    than 2 points, one for the cargo temperature when there is one.  The
    clock and the source of the draws are left alone. *)
Theorem update_draw_count vehicle d w :
  destination vehicle = Some d ->
  exists v' w',
    simulateGPSUpdate calculateNewPosition calculateVehicleStatus vehicle w
    = (Returned v', w') /\
    draws w' = draws w /\
    clock w' = clock w /\
    cursor w'
    = (cursor w + 4
       + (if (draws w (3 + cursor w) <? 0.02)%R then 1 else 0)
       + (if hasRoute vehicle then 1 else 0)
       + (if truthy (cargoTemperature vehicle) then 1 else 0))%nat.
Proof.
  intros Hd.
  destruct (simulateGPSUpdate_stages vehicle d w Hd)
    as (s & w1 & p & h & w2 & _ & _ & _ & _ & Hdraws & Hclock & Hcur & Hrun).
  rewrite Hrun, driftCargoTemperature_eval.
  cbn [cargoTemperature set_status assembled].
  destruct (cargoTemperature vehicle) as [t|].
  - eexists _, _. split; [reflexivity|]. cbn [draws clock cursor truthy].
    repeat split; try assumption. lia.
  - eexists _, _. split; [reflexivity|]. cbn [truthy].
    repeat split; try assumption. lia.
Qed.

(** ** What an update leaves alone *)

(** X8: The update never changes who the vehicle is and where it goes: id,
    driver, destination, scheduled arrival and route are those of the
    vehicle it was given. *)
Theorem update_keeps_identity vehicle d w :
  destination vehicle = Some d ->
  exists v' w',
    simulateGPSUpdate calculateNewPosition calculateVehicleStatus vehicle w
    = (Returned v', w') /\
    sameIdentity vehicle v'.
Proof.
  intros Hd.
  destruct (simulateGPSUpdate_stages vehicle d w Hd)
    as (s & w1 & p & h & w2 & _ & _ & _ & _ & _ & _ & _ & Hrun).
  rewrite Hrun, driftCargoTemperature_eval.
  cbn [cargoTemperature set_status assembled].
  destruct (cargoTemperature vehicle) as [t|];
    (eexists _, _; split; [reflexivity|]; unfold sameIdentity; cbn; tauto).
Qed.

(** ** Stopping *)

Lemma updateLastStopTime_stopped now l :
  updateLastStopTime now 0 l
  = Some (match l with Some t => t | None => now end).
Proof.
  unfold updateLastStopTime.
  rewrite (proj2 (ltb_true 0 5)) by lra.
  destruct l as [t|]; cbn [truthy negb andb]; [|reflexivity].
  rewrite (proj2 (geb_false 0 5)) by lra. reflexivity.
Qed.

Lemma updateLastStopTime_moving now s l :
  5 <= s -> updateLastStopTime now s l = None.
Proof.
  intros Hs. unfold updateLastStopTime.
  rewrite (proj2 (ltb_false s 5)) by lra. cbn [andb].
  rewrite (proj2 (geb_true s 5)) by lra. reflexivity.
Qed.

Lemma arrivalSpeed_away dist s :
  100 <= dist -> 5 <= s -> 5 <= arrivalSpeed dist s.
Proof.
  intros Hd Hs. unfold arrivalSpeed, Math_min, Rmin.
  rewrite (proj2 (ltb_false dist 100)) by lra.
  destruct (dist <? 500); [|lra].
  destruct (Rle_dec s 20); lra.
Qed.

(** X6: With [p] the position that the update's own move computes and
    [dist] its flat-earth distance to the destination, the update stores
    speed 0 if and only if [dist] is under 100 metres; it then keeps the
    stop time the vehicle had or sets it to the time of the update.  From
    100 metres on the stored speed is at least 5 and the stop time is
    cleared: the traffic slowdown never counts as a stop. *)
Theorem stopped_exactly_on_arrival vehicle d w :
  destination vehicle = Some d ->
  exists s w1 p h w2 v' w',
    rawSpeed vehicle w = (Returned s, w1) /\
    moveTowardTarget calculateNewPosition vehicle (distanceKm vehicle) w1
    = (Returned (p, h), w2) /\
    simulateGPSUpdate calculateNewPosition calculateVehicleStatus vehicle w
    = (Returned v', w') /\
    let dist := flatEarthMetres (dest_lat d) (dest_lng d) (lat p) (lng p) in
    (currentSpeed v' = 0 <-> dist < 100) /\
    (dist < 100 ->
       lastStopTime v'
       = Some (match lastStopTime vehicle with
               | Some t => t
               | None => clock w
               end)) /\
    (100 <= dist -> 5 <= currentSpeed v' /\ lastStopTime v' = None).
Proof.
  intros Hd.
  destruct (simulateGPSUpdate_stages vehicle d w Hd)
    as (s & w1 & p & h & w2 & Hraw & Hs & Hmove & _ & _ & _ & _ & Hrun).
  set (dist := flatEarthMetres (dest_lat d) (dest_lng d) (lat p) (lng p)).
  assert (Hfields :
    exists v' w',
      simulateGPSUpdate calculateNewPosition calculateVehicleStatus vehicle w
      = (Returned v', w') /\
      currentSpeed v' = arrivalSpeed dist s /\
      lastStopTime v'
      = updateLastStopTime (clock w) (arrivalSpeed dist s)
          (lastStopTime vehicle)).
  { rewrite Hrun, driftCargoTemperature_eval.
    cbn [cargoTemperature set_status assembled].
    destruct (cargoTemperature vehicle) as [t|];
      (eexists _, _; split; [reflexivity|]; split; reflexivity). }
  destruct Hfields as (v' & w' & Hv' & Hspeed & Hstop).
  exists s, w1, p, h, w2, v', w'.
  split; [exact Hraw|]. split; [exact Hmove|]. split; [exact Hv'|].
  cbv zeta. fold dist. rewrite Hspeed, Hstop.
  split; [split|split].
  - intros Hzero. destruct (Rlt_or_le dist 100) as [Hnear|Hfar]; [exact Hnear|].
    pose proof (arrivalSpeed_away dist s Hfar (proj1 Hs)). lra.
  - intros Hnear. apply arrivalSpeed_arrived. exact Hnear.
  - intros Hnear. rewrite (arrivalSpeed_arrived dist s Hnear).
    apply updateLastStopTime_stopped.
  - intros Hfar. pose proof (arrivalSpeed_away dist s Hfar (proj1 Hs)) as H5.
    split; [exact H5|apply updateLastStopTime_moving; exact H5].
Qed.

(** ** Cargo temperature *)


(** ** The batch and the ticks *)

Lemma simulateAllVehicles_Forall2 (P : Vehicle -> Prop)
    (Rel : Vehicle -> Vehicle -> Prop) :
  (forall v w, P v ->
     exists v' w',
       simulateGPSUpdate calculateNewPosition calculateVehicleStatus v w
       = (Returned v', w') /\ Rel v v') ->
  forall vs w,
    Forall P vs ->
    exists vs' w',
      simulateAllVehicles calculateNewPosition calculateVehicleStatus vs w
      = (Returned vs', w') /\
      Forall2 Rel vs vs'.
Proof.
  intros Hstep.
  induction vs as [|v rest IH]; intros w Hall.
  - exists [], w. split; [reflexivity|constructor].
  - inversion Hall as [|? ? Hv Hrest]; subst.
    destruct (Hstep v w Hv) as (v' & w1 & Hrun & Hrel).
    destruct (IH w1 Hrest) as (rest' & w2 & Hruns & Hrels).
    exists (v' :: rest'), w2. split; [|constructor; assumption].
    cbn [simulateAllVehicles]. unfold bind at 1. rewrite Hrun.
    unfold bind at 1. rewrite Hruns. reflexivity.
Qed.

Lemma runSimulation_Forall2 (P : Vehicle -> Prop)
    (Rel : Vehicle -> Vehicle -> Prop) :
  (forall v w, P v ->
     exists v' w',
       simulateGPSUpdate calculateNewPosition calculateVehicleStatus v w
       = (Returned v', w') /\ Rel v v' /\ P v') ->
  (forall v, Rel v v) ->
  (forall a b c, Rel a b -> Rel b c -> Rel a c) ->
  forall ticks vs w,
    Forall P vs ->
    Forall2 Rel vs
      (fst (runSimulation calculateNewPosition calculateVehicleStatus
              ticks vs w)) /\
    Forall P
      (fst (runSimulation calculateNewPosition calculateVehicleStatus
              ticks vs w)).
Proof.
  intros Hstep Hrefl Htrans.
  induction ticks as [|n IH]; intros vs w Hall.
  - cbn [runSimulation fst]. split; [|exact Hall].
    clear Hall. induction vs; constructor; auto.
  - cbn [runSimulation]. unfold intervalCallback.
    destruct (simulateAllVehicles_Forall2 P (fun a b => Rel a b /\ P b)
                Hstep vs (elapse 4000 w) Hall)
      as (vs' & w' & Hrun & Hrel).
    rewrite Hrun.
    assert (Hall' : Forall P vs').
    { clear Hrun Hall IH. induction Hrel; constructor; tauto. }
    destruct (IH vs' w' Hall') as (Hrest & Hp).
    split; [|exact Hp].
    clear Hrun Hp Hall Hall'.
    revert Hrest.
    generalize (fst (runSimulation calculateNewPosition calculateVehicleStatus
                       n vs' w')).
    induction Hrel as [|a b vs vs' (Hab & _) _ IHrel]; intros l Hl.
    + exact Hl.
    + inversion Hl as [|? c ? l' Hbc Hl']; subst.
      constructor; [exact (Htrans a b c Hab Hbc)|apply IHrel; exact Hl'].
Qed.

Lemma sameIdentity_refl v : sameIdentity v v.
Proof. unfold sameIdentity. tauto. Qed.

Lemma sameIdentity_trans a b c :
  sameIdentity a b -> sameIdentity b c -> sameIdentity a c.
Proof.
  unfold sameIdentity.
  intros (H1 & H2 & H3 & H4 & H5) (G1 & G2 & G3 & G4 & G5).
  repeat split; congruence.
Qed.

Lemma update_identity_step v w :
  hasDestination v ->
  exists v' w',
    simulateGPSUpdate calculateNewPosition calculateVehicleStatus v w
    = (Returned v', w') /\ sameIdentity v v' /\ hasDestination v'.
Proof.
  intros Hv. destruct (hasDestination_Some v Hv) as (d & Hd).
  destruct (simulateGPSUpdate_stages v d w Hd)
    as (s & w1 & p & h & w2 & _ & _ & _ & _ & _ & _ & _ & Hrun).
  rewrite Hrun, driftCargoTemperature_eval.
  cbn [cargoTemperature set_status assembled].
  destruct (cargoTemperature v) as [t|];
    (eexists _, _; split; [reflexivity|]; unfold sameIdentity, hasDestination;
     cbn; repeat split; exact Hv).
Qed.

(** X10: [simulateAllVehicles] maps the fleet vehicle by vehicle: as many
    vehicles come out as went in, in the same order, each with the id,
    driver, destination, schedule and route of the one it updates. *)
Theorem simulateAllVehicles_pointwise vs w :
  Forall hasDestination vs ->
  exists vs' w',
    simulateAllVehicles calculateNewPosition calculateVehicleStatus vs w
    = (Returned vs', w') /\
    Forall2 sameIdentity vs vs' /\
    length vs' = length vs /\
    map id vs' = map id vs.
Proof.
  intros Hall.
  destruct (simulateAllVehicles_Forall2 hasDestination
              (fun a b => sameIdentity a b /\ hasDestination b)
              update_identity_step vs w Hall)
    as (vs' & w' & Hrun & Hrel).
  exists vs', w'. split; [exact Hrun|].
  clear Hrun Hall.
  induction Hrel as [|a b vs vs' (Hab & _) _ (IH1 & IH2 & IH3)].
  - repeat split; constructor.
  - split; [constructor; assumption|].
    cbn [length map]. destruct Hab as (Hid & _).
    split; congruence.
Qed.

(** One vehicle without destination makes the whole batch throw. *)
Lemma simulateAllVehicles_throws vs w :
  Exists (fun v => destination v = None) vs ->
  exists w',
    simulateAllVehicles calculateNewPosition calculateVehicleStatus vs w
    = (Thrown (TypeError "lat"), w').
Proof.
  revert w. induction vs as [|v rest IH]; intros w Hex.
  - inversion Hex.
  - cbn [simulateAllVehicles]. unfold bind at 1.
    destruct (destination v) as [d|] eqn:Hd.
    + destruct (simulateGPSUpdate_returns calculateNewPosition
                  calculateVehicleStatus v d w Hd)
        as (s & w1 & p & h & w2 & v' & w' & _ & _ & _ & Hrun & _).
      rewrite Hrun.
      assert (Hrest : Exists (fun v => destination v = None) rest).
      { inversion Hex as [? ? Hv|? ? Hr]; subst; [congruence|exact Hr]. }
      destruct (IH w' Hrest) as (w'' & Hruns).
      unfold bind at 1. rewrite Hruns. eauto.
    + destruct (update_without_destination calculateNewPosition
                  calculateVehicleStatus v w Hd) as (w' & Hrun & _).
      rewrite Hrun. eauto.
Qed.

(** X11: A fleet with one vehicle without destination is frozen: every tick
    throws before the store is written, so after any number of ticks the
    store holds the vehicles it started with, none of them updated. *)
Theorem missing_destination_freezes_fleet ticks vs w :
  Exists (fun v => destination v = None) vs ->
  fst (runSimulation calculateNewPosition calculateVehicleStatus ticks vs w)
  = vs.
Proof.
  intros Hex. revert w.
  induction ticks as [|n IH]; intros w; [reflexivity|].
  cbn [runSimulation]. unfold intervalCallback.
  destruct (simulateAllVehicles_throws vs (elapse 4000 w) Hex) as (w' & Hrun).
  rewrite Hrun. apply IH.
Qed.

(** X12: Over any number of ticks a fleet whose vehicles all have a
    destination keeps its vehicles: same number, same order, same ids,
    drivers, destinations, schedules and routes; and after at least one
    tick every speed is between 0 and 98, every heading from 0 up to 360
    and every history at most 450 entries long. *)
Theorem fleet_after_ticks ticks vs w :
  Forall hasDestination vs ->
  let vs' :=
    fst (runSimulation calculateNewPosition calculateVehicleStatus ticks vs w) in
  Forall2 sameIdentity vs vs' /\
  map id vs' = map id vs /\
  ((0 < ticks)%nat ->
   Forall (fun v => 0 <= currentSpeed v <= 98 /\
                    0 <= heading v < 360 /\
                    (length (existingHistory v) <= 450)%nat) vs').
Proof.
  intros Hall vs'.
  destruct (runSimulation_Forall2 hasDestination sameIdentity
              update_identity_step sameIdentity_refl sameIdentity_trans
              ticks vs w Hall) as (Hrel & _).
  fold vs' in Hrel. split; [exact Hrel|]. split.
  - clear Hall. induction Hrel as [|a b l l' (Hid & _) _ IH];
      [reflexivity|cbn [map]; congruence].
  - intros Hpos. destruct ticks as [|n]; [lia|].
    apply invariants_after_ticks. exact Hall.
Qed.

(** ** Parked vehicles *)

Lemma flatEarthMetres_self a b : flatEarthMetres a b a b = 0.
Proof.
  rewrite flatEarthMetres_same_lng, Rminus_diag, Rabs_R0. lra.
Qed.

Section Parked.

(** [calculateNewPosition] does not move a vehicle over distance 0. *)
Hypothesis calculateNewPosition_0 :
  forall p h, calculateNewPosition p 0 h = p.

Lemma parked_step v w :
  parked v ->
  exists v' w',
    simulateGPSUpdate calculateNewPosition calculateVehicleStatus v w
    = (Returned v', w') /\ position v' = position v /\ parked v'.
Proof.
  intros (d & Hd & Hspeed & Hpos).
  destruct (simulateGPSUpdate_stages v d w Hd)
    as (s & w1 & p & h & w2 & _ & _ & _ & Hp & _ & _ & _ & Hrun).
  assert (Hkm : distanceKm v = 0) by (unfold distanceKm; rewrite Hspeed; lra).
  rewrite Hkm, calculateNewPosition_0, Hpos in Hp. subst p.
  rewrite Hrun, driftCargoTemperature_eval.
  cbn [cargoTemperature set_status assembled].
  assert (Hnear : (flatEarthMetres (dest_lat d) (dest_lng d)
                     (lat (mkPosition (dest_lat d) (dest_lng d)))
                     (lng (mkPosition (dest_lat d) (dest_lng d))) <? 100) = true).
  { apply ltb_true. cbn [lat lng]. rewrite flatEarthMetres_self. lra. }
  destruct (cargoTemperature v) as [t|];
    (eexists _, _; split; [reflexivity|];
     unfold parked, assembled; cbn [position destination currentSpeed
       set_cargoTemperature set_status];
     rewrite Hnear; split; [symmetry; exact Hpos|];
     exists d; split; [exact Hd|]; split; [|reflexivity];
     apply arrivalSpeed_arrived; apply ltb_true; exact Hnear).
Qed.

(** X13: Vehicles standing on their destination with speed 0 stay there, at
    speed 0, over any number of ticks. *)
Theorem parked_fleet_stays_parked ticks vs w :
  Forall parked vs ->
  Forall parked
    (fst (runSimulation calculateNewPosition calculateVehicleStatus ticks vs w))
  /\
  map position
    (fst (runSimulation calculateNewPosition calculateVehicleStatus ticks vs w))
  = map position vs.
Proof.
  intros Hall.
  destruct (runSimulation_Forall2 parked (fun a b => position b = position a)
              parked_step (fun v => eq_refl)
              (fun a b c Hab Hbc => eq_trans Hbc Hab)
              ticks vs w Hall) as (Hrel & Hp).
  split; [exact Hp|].
  clear Hall Hp. induction Hrel as [|a b l l' Hab _ IH];
    [reflexivity|cbn [map]; congruence].
Qed.

End Parked.

End MoreProperties.

(** ** The closest point and the next target *)

Lemma forEach_closest_strict position points :
  forall index acc m0,
    snd acc = Num.Finite m0 ->
    forEach_closest position points index acc = acc \/
    exists m,
      snd (forEach_closest position points index acc) = Num.Finite m /\ m < m0.
Proof.
  induction points as [|point rest IH]; intros index acc m0 Hacc.
  - left. reflexivity.
  - cbn [forEach_closest]. fold (distanceFrom position point).
    set (d := distanceFrom position point).
    rewrite Hacc. cbn [Num.lt_ext].
    destruct (d <? m0) eqn:Hlt.
    + apply ltb_true in Hlt. right.
      destruct (IH (index + 1)%Z (index, Num.Finite d) d eq_refl)
        as [Hsame | (m & Hm & Hmd)].
      * rewrite Hsame. exists d. split; [reflexivity|exact Hlt].
      * exists m. split; [exact Hm|lra].
    + destruct (IH (index + 1)%Z acc m0 Hacc) as [Hsame | (m & Hm & Hmd)].
      * left. exact Hsame.
      * right. exists m. split; [exact Hm|exact Hmd].
Qed.

Lemma forEach_closest_first position points :
  forall index acc,
    (fst acc <= index)%Z ->
    forall k q,
      nth_error points k = Some q ->
      (index + Z.of_nat k < fst (forEach_closest position points index acc))%Z ->
      exists m,
        snd (forEach_closest position points index acc) = Num.Finite m /\
        m < distanceFrom position q.
Proof.
  induction points as [|point rest IH]; intros index acc Hacc k q Hk Hlt.
  - destruct k; discriminate.
  - cbn [forEach_closest] in *. fold (distanceFrom position point) in *.
    set (d := distanceFrom position point) in *.
    set (acc' := if Num.lt_ext d (snd acc) then (index, Num.Finite d) else acc)
      in *.
    assert (Hacc' : (fst acc' <= index)%Z)
      by (subst acc'; destruct (Num.lt_ext d (snd acc)); cbn [fst]; lia).
    destruct k as [|k].
    + injection Hk as <-.
      assert (Hd : exists m', snd acc' = Num.Finite m' /\ m' <= d).
      { subst acc'. destruct (Num.lt_ext d (snd acc)) eqn:Hcmp.
        - exists d. split; [reflexivity|lra].
        - destruct (snd acc) as [|m0]; [discriminate|].
          cbn [Num.lt_ext] in Hcmp. apply ltb_false in Hcmp.
          exists m0. split; [reflexivity|exact Hcmp]. }
      destruct Hd as (m' & Hm' & Hle).
      destruct (forEach_closest_strict position rest (index + 1)%Z acc' m' Hm')
        as [Hsame | (m & Hm & Hmm)].
      * rewrite Hsame in Hlt. lia.
      * exists m. split; [exact Hm|]. fold d. lra.
    + apply (IH (index + 1)%Z acc' ltac:(lia) k q Hk). lia.
Qed.

(** X1: [findClosestRoutePoint] returns the index of a point of the route
    that no other point is closer than, and the first such: every earlier
    point is strictly farther from the position. *)
Theorem findClosestRoutePoint_nearest_first position points :
  points <> [] ->
  exists p,
    nth_error points (Z.to_nat (findClosestRoutePoint position (Some points)))
    = Some p /\
    (forall q, In q points -> distanceFrom position p <= distanceFrom position q) /\
    (forall k q,
       nth_error points k = Some q ->
       (Z.of_nat k < findClosestRoutePoint position (Some points))%Z ->
       distanceFrom position p < distanceFrom position q).
Proof.
  intros Hne.
  assert (Hfind : findClosestRoutePoint position (Some points)
                  = fst (forEach_closest position points 0%Z (0%Z, Num.Infinity)))
    by (destruct points; [congruence|reflexivity]).
  rewrite Hfind.
  destruct (forEach_closest_min position points 0%Z (0%Z, Num.Infinity))
    as (_ & Hmin & Hidx).
  destruct points as [|p0 rest]; [congruence|].
  destruct (Hmin p0 (or_introl eq_refl)) as (m & Hm & _).
  destruct Hidx as [Hsame | (k & p & Hk & Hfst & Hsnd)].
  - rewrite Hsame in Hm. discriminate.
  - exists p. rewrite Hfst. rewrite Z.add_0_l, Nat2Z.id.
    split; [exact Hk|]. split.
    + intros q Hq. destruct (Hmin q Hq) as (m' & Hm' & Hle).
      rewrite Hsnd in Hm'. injection Hm' as <-. exact Hle.
    + intros j q Hj Hlt.
      destruct (forEach_closest_first position (p0 :: rest) 0%Z
                  (0%Z, Num.Infinity) ltac:(cbn; lia) j q Hj)
        as (m' & Hm' & Hless).
      { rewrite Hfst. lia. }
      rewrite Hsnd in Hm'. injection Hm' as <-. exact Hless.
Qed.

(** X2: Whatever the position and the route, the index returned is not
    negative and lies below the length of the route; it is 0 when the
    route is missing or empty. *)
Theorem findClosestRoutePoint_index position route :
  (0 <= findClosestRoutePoint position route)%Z /\
  match route with
  | Some (p :: rest) =>
      (findClosestRoutePoint position route < length_of (p :: rest))%Z
  | _ => findClosestRoutePoint position route = 0%Z
  end.
Proof.
  destruct route as [[|p rest]|]; try (split; [reflexivity|reflexivity]).
  pose proof (findClosestRoutePoint_range position (p :: rest)
                ltac:(discriminate)) as H.
  split; [apply H|apply H].
Qed.

(** X3: With a route that is not empty [getNextRouteTarget] never answers with
    the destination and never reads it: from index -1 on it returns the
    waypoint after the current index, the last waypoint at most, and below
    -1 it throws on the waypoint that is not there. *)
Theorem getNextRouteTarget_stays_on_route vehicle points currentRouteIndex w :
  route vehicle = Some points ->
  points <> [] ->
  let targetIndex := Z.min (currentRouteIndex + 1) (length_of points - 1) in
  ((-1 <= currentRouteIndex)%Z ->
   exists p,
     nth_error points (Z.to_nat targetIndex) = Some p /\
     (0 <= targetIndex < length_of points)%Z /\
     getNextRouteTarget vehicle currentRouteIndex w
     = (Returned (Some (mkTarget (lat p) (lng p) targetIndex)), w)) /\
  ((currentRouteIndex < -1)%Z ->
   getNextRouteTarget vehicle currentRouteIndex w
   = (Thrown (TypeError "lat"), w)).
Proof.
  intros Hroute Hne targetIndex.
  assert (Hlen : (0 < length_of points)%Z).
  { unfold length_of. destruct points; [congruence|]. cbn [length]. lia. }
  assert (Hnot : (targetIndex >=? length_of points)%Z = false).
  { destruct (targetIndex >=? length_of points)%Z eqn:Hge; [|reflexivity].
    apply Z.geb_le in Hge. subst targetIndex. lia. }
  split.
  - intros Hcur.
    destruct (at_index_in_range points targetIndex) as (p & Hp & Hat).
    { subst targetIndex. lia. }
    exists p. split; [exact Hp|]. split; [subst targetIndex; lia|].
    unfold getNextRouteTarget. rewrite Hroute.
    destruct points as [|p0 rest]; [congruence|].
    fold targetIndex. rewrite Hnot. unfold bind. rewrite Hat. reflexivity.
  - intros Hcur.
    unfold getNextRouteTarget. rewrite Hroute.
    destruct points as [|p0 rest]; [congruence|].
    fold targetIndex. rewrite Hnot. unfold bind, at_index.
    assert (Hneg : (targetIndex <? 0)%Z = true)
      by (apply Z.ltb_lt; subst targetIndex; lia).
    rewrite Hneg. reflexivity.
Qed.

(** ** The store *)

(** X19: [updateVehicleRoute] gives the route to every vehicle with the given
    id and to no other: ids, order and selection stay, the vehicles with
    another id are untouched, and those with the id change in their route
    only. *)
Theorem updateVehicleRoute_by_id vehicleId route st :
  let st' := VehicleStore.updateVehicleRoute vehicleId route st in
  VehicleStore.selectedVehicleId st' = VehicleStore.selectedVehicleId st /\
  map id (VehicleStore.vehicles st') = map id (VehicleStore.vehicles st) /\
  Forall2
    (fun v v' =>
       (id v = vehicleId -> v' = VehicleStore.set_route (Some route) v) /\
       (id v <> vehicleId -> v' = v))
    (VehicleStore.vehicles st) (VehicleStore.vehicles st').
Proof.
  destruct st as [vs sel]. cbn.
  split; [reflexivity|].
  induction vs as [|v rest (IH1 & IH2)]; [repeat constructor|].
  cbn [map]. destruct (String.eqb (id v) vehicleId) eqn:Heq.
  - apply String.eqb_eq in Heq. split; [cbn [id VehicleStore.set_route]; congruence|].
    constructor; [|exact IH2]. split; [reflexivity|congruence].
  - apply String.eqb_neq in Heq. split; [congruence|].
    constructor; [|exact IH2]. split; [congruence|reflexivity].
Qed.

(** X20: A route for an id that no vehicle has is dropped without a trace: the
    store is unchanged. *)
Theorem updateVehicleRoute_unknown_id vehicleId route st :
  Forall (fun v => id v <> vehicleId) (VehicleStore.vehicles st) ->
  VehicleStore.updateVehicleRoute vehicleId route st = st.
Proof.
  destruct st as [vs sel]. unfold VehicleStore.updateVehicleRoute. cbn.
  intros Hall. f_equal.
  induction Hall as [|v rest Hv _ IH]; [reflexivity|].
  cbn [map]. apply String.eqb_neq in Hv. rewrite Hv, IH. reflexivity.
Qed.

(** X21: Of two routes given to the same id the last one wins. *)
Theorem updateVehicleRoute_last_wins vehicleId route1 route2 st :
  VehicleStore.updateVehicleRoute vehicleId route2
    (VehicleStore.updateVehicleRoute vehicleId route1 st)
  = VehicleStore.updateVehicleRoute vehicleId route2 st.
Proof.
  destruct st as [vs sel]. unfold VehicleStore.updateVehicleRoute. cbn.
  f_equal. rewrite map_map. apply map_ext. intros v.
  destruct (String.eqb (id v) vehicleId) eqn:Heq.
  - cbn [id VehicleStore.set_route]. rewrite Heq. reflexivity.
  - rewrite Heq. reflexivity.
Qed.

(** X22: [removeVehicle] takes out every vehicle with the given id, however
    many there are, and keeps the others in their order; with an id that
    no vehicle has it leaves the store as it is. *)
Theorem removeVehicle_by_id vehicleId st :
  let st' := VehicleStore.removeVehicle vehicleId st in
  VehicleStore.selectedVehicleId st' = VehicleStore.selectedVehicleId st /\
  (forall v,
     In v (VehicleStore.vehicles st') <->
     In v (VehicleStore.vehicles st) /\ id v <> vehicleId) /\
  (exists removed,
     Permutation (VehicleStore.vehicles st)
       (VehicleStore.vehicles st' ++ removed) /\
     Forall (fun v => id v = vehicleId) removed) /\
  (Forall (fun v => id v <> vehicleId) (VehicleStore.vehicles st) -> st' = st).
Proof.
  destruct st as [vs sel]. cbn.
  split; [reflexivity|]. split; [|split].
  - intros v. rewrite filter_In. rewrite negb_true_iff.
    split; intros (Hin & Hne); (split; [exact Hin|]).
    + apply String.eqb_neq. exact Hne.
    + apply String.eqb_neq. exact Hne.
  - exists (filter (fun v => String.eqb (id v) vehicleId) vs). split.
    + induction vs as [|v rest IH]; [constructor|].
      cbn [filter]. destruct (String.eqb (id v) vehicleId); cbn [negb].
      * apply Permutation_cons_app. exact IH.
      * cbn [app]. constructor. exact IH.
    + apply Forall_forall. intros v Hv. apply filter_In in Hv.
      apply String.eqb_eq. apply Hv.
  - intros Hall. unfold VehicleStore.removeVehicle. cbn. f_equal.
    induction Hall as [|v rest Hv _ IH]; [reflexivity|].
    cbn [filter]. apply String.eqb_neq in Hv. rewrite Hv. cbn [negb].
    rewrite IH. reflexivity.
Qed.

(** X23: Adding a vehicle whose id is new and removing that id again gives
    the store back. *)
Theorem add_then_remove vehicle st :
  Forall (fun v => id v <> id vehicle) (VehicleStore.vehicles st) ->
  VehicleStore.removeVehicle (id vehicle) (VehicleStore.addVehicle vehicle st)
  = st.
Proof.
  destruct st as [vs sel].
  unfold VehicleStore.removeVehicle, VehicleStore.addVehicle. cbn.
  intros Hall. f_equal. rewrite filter_app. cbn [filter].
  rewrite String.eqb_refl. cbn [negb]. rewrite app_nil_r.
  induction Hall as [|v rest Hv _ IH]; [reflexivity|].
  cbn [filter]. apply String.eqb_neq in Hv. rewrite Hv. cbn [negb].
  rewrite IH. reflexivity.
Qed.

(** ** The speed monitor *)

(** X27: The three groups of the speed monitor split the fleet: every vehicle
    is in exactly one of them, so the three counts add up to the size of
    the fleet. *)
Theorem speed_groups_partition vs :
  Permutation (speedingVehicles vs ++ fastVehicles vs ++ normalVehicles vs) vs /\
  (length (speedingVehicles vs) + length (fastVehicles vs)
   + length (normalVehicles vs) = length vs)%nat.
Proof.
  assert (Hperm : Permutation
            (speedingVehicles vs ++ fastVehicles vs ++ normalVehicles vs) vs).
  { unfold speedingVehicles, fastVehicles, normalVehicles.
    induction vs as [|v rest IH]; [constructor|].
    cbn [filter].
    destruct (Rle_dec 95 (currentSpeed v)) as [H95|H95].
    - rewrite (proj2 (geb_true (currentSpeed v) 95)) by lra.
      rewrite (proj2 (ltb_false (currentSpeed v) 95)) by lra.
      rewrite (proj2 (ltb_false (currentSpeed v) 80)) by lra.
      rewrite andb_false_r. cbn [app]. constructor. exact IH.
    - rewrite (proj2 (geb_false (currentSpeed v) 95)) by lra.
      rewrite (proj2 (ltb_true (currentSpeed v) 95)) by lra.
      rewrite andb_true_r.
      destruct (Rle_dec 80 (currentSpeed v)) as [H80|H80].
      + rewrite (proj2 (geb_true (currentSpeed v) 80)) by lra.
        rewrite (proj2 (ltb_false (currentSpeed v) 80)) by lra.
        symmetry. apply Permutation_cons_app. symmetry. exact IH.
      + rewrite (proj2 (geb_false (currentSpeed v) 80)) by lra.
        rewrite (proj2 (ltb_true (currentSpeed v) 80)) by lra.
        symmetry. rewrite app_assoc. apply Permutation_cons_app.
        rewrite <- app_assoc. symmetry. exact IH. }
  split; [exact Hperm|].
  apply Permutation_length in Hperm. rewrite !length_app in Hperm. lia.
Qed.

(** ** Routes on the map *)

(** X28: The two conversions between a route of positions and GeoJSON
    coordinates (longitude first) undo each other. *)
Theorem route_coordinates_round_trip :
  (forall route, routePositions (routeCoordinates route) = route) /\
  (forall coordinates,
     routeCoordinates (routePositions coordinates) = coordinates).
Proof.
  unfold routePositions, routeCoordinates. split.
  - intros route. rewrite map_map. rewrite <- (map_id route) at 2.
    apply map_ext. intros [plat plng]. reflexivity.
  - intros coordinates. rewrite map_map. rewrite <- (map_id coordinates) at 2.
    apply map_ext. intros [clng clat]. reflexivity.
Qed.

(** ** Distances and bearings of the initial fleet *)

Lemma atan2_range y x : - PI < Math_atan2 y x <= PI.
Proof.
  pose proof PI_RGT_0 as Hpi.
  unfold Math_atan2.
  destruct (Rlt_dec 0 x) as [Hx|Hx].
  - pose proof (atan_bound (y / x)). lra.
  - destruct (Rlt_dec x 0) as [Hx'|Hx'].
    + assert (Hinv : / x < 0) by (apply Rinv_lt_0_compat; exact Hx').
      pose proof (atan_bound (y / x)) as Hb.
      destruct (Rle_dec 0 y) as [Hy|Hy].
      * assert (Hq : y / x <= 0) by (unfold Rdiv; nra).
        assert (Ha : atan (y / x) <= 0).
        { destruct Hq as [Hq|Hq].
          - pose proof (atan_increasing _ _ Hq) as Hlt. rewrite atan_0 in Hlt. lra.
          - rewrite Hq, atan_0. lra. }
        lra.
      * assert (Hq : 0 < y / x) by (unfold Rdiv; nra).
        pose proof (atan_increasing _ _ Hq) as Hlt. rewrite atan_0 in Hlt. lra.
    + destruct (Rlt_dec 0 y); [lra|]. destruct (Rlt_dec y 0); lra.
Qed.

Lemma atan2_first_quadrant y x :
  0 <= y -> 0 <= x -> 0 <= Math_atan2 y x <= PI / 2.
Proof.
  intros Hy Hx. pose proof PI_RGT_0 as Hpi.
  unfold Math_atan2.
  destruct (Rlt_dec 0 x) as [Hx'|Hx'].
  - pose proof (atan_bound (y / x)) as Hb.
    assert (Hinv : 0 < / x) by (apply Rinv_0_lt_compat; exact Hx').
    assert (Hq : 0 <= y / x) by (unfold Rdiv; nra).
    assert (Ha : 0 <= atan (y / x)).
    { destruct Hq as [Hq|Hq].
      - pose proof (atan_increasing _ _ Hq) as Hlt. rewrite atan_0 in Hlt. lra.
      - rewrite <- Hq, atan_0. lra. }
    lra.
  - destruct (Rlt_dec x 0); [lra|].
    destruct (Rlt_dec 0 y); [lra|]. destruct (Rlt_dec y 0); lra.
Qed.

Lemma calculateDistance_range point1 point2 :
  0 <= calculateDistance point1 point2 <= 6371 * PI.
Proof.
  unfold calculateDistance, Math_sqrt.
  match goal with
  | |- context [Math_atan2 (sqrt ?a) (sqrt ?b)] =>
      pose proof (atan2_first_quadrant (sqrt a) (sqrt b)
                    (sqrt_pos a) (sqrt_pos b)) as Hc
  end.
  cbv zeta. lra.
Qed.

Lemma cos_cos_le a b :
  cos a * cos b <= cos ((b - a) / 2) * cos ((b - a) / 2).
Proof.
  pose proof (cos_minus b a) as Hm. pose proof (cos_plus b a) as Hp.
  pose proof (COS_bound (b + a)) as (_ & Hb).
  pose proof (cos_2a_cos ((b - a) / 2)) as H2.
  replace (2 * ((b - a) / 2)) with (b - a) in H2 by field.
  nra.
Qed.

Lemma validLatitude_cos p : validLatitude p -> 0 <= cos (lat p * Math_PI / 180).
Proof.
  intros (Hlo & Hhi). pose proof PI_RGT_0 as Hpi. unfold Math_PI.
  apply cos_ge_0; nra.
Qed.

Lemma haversine_range point1 point2 :
  validLatitude point1 -> validLatitude point2 ->
  0 <= haversine point1 point2 <= 1.
Proof.
  intros H1 H2. unfold haversine. cbv zeta.
  pose proof (validLatitude_cos point1 H1) as Hc1.
  pose proof (validLatitude_cos point2 H2) as Hc2.
  pose proof (cos_cos_le (lat point1 * Math_PI / 180)
                (lat point2 * Math_PI / 180)) as Hcc.
  replace ((lat point2 * Math_PI / 180 - lat point1 * Math_PI / 180) / 2)
    with ((lat point2 - lat point1) * Math_PI / 180 / 2) in Hcc by field.
  set (x := (lat point2 - lat point1) * Math_PI / 180 / 2) in *.
  set (y := (lng point2 - lng point1) * Math_PI / 180 / 2).
  pose proof (sin2_cos2 x) as Hx. unfold Rsqr in Hx.
  pose proof (SIN_bound y) as Hy.
  set (c1 := cos (lat point1 * Math_PI / 180)) in *.
  set (c2 := cos (lat point2 * Math_PI / 180)) in *.
  assert (Hsy : 0 <= sin y * sin y <= 1) by nra.
  assert (Hsx : 0 <= sin x * sin x) by nra.
  assert (Hprod : 0 <= c1 * c2) by nra.
  split; nra.
Qed.

(** X15: For latitudes between the poles the Haversine distance takes its
    square roots of numbers between 0 and 1; it is 0 from a point to
    itself, the same in both directions, and between 0 and half the
    circumference of the Earth, 6371 * PI kilometres. *)
Theorem calculateDistance_metric point1 point2 :
  validLatitude point1 -> validLatitude point2 ->
  0 <= haversine point1 point2 <= 1 /\
  calculateDistance point1 point1 = 0 /\
  calculateDistance point1 point2 = calculateDistance point2 point1 /\
  0 <= calculateDistance point1 point2 <= 6371 * PI.
Proof.
  intros Hv1 Hv2.
  split; [apply haversine_range; assumption|].
  split; [|split].
  - unfold calculateDistance, Math_sqrt.
    rewrite !Rminus_diag.
    replace (0 * Math_PI / 180 / 2) with 0 by (unfold Rdiv; ring).
    rewrite sin_0.
    replace (0 * 0 + cos (lat point1 * Math_PI / 180)
                     * cos (lat point1 * Math_PI / 180) * 0 * 0) with 0 by ring.
    rewrite Rminus_0_r, sqrt_0, sqrt_1.
    rewrite atan2_north by lra. ring.
  - unfold calculateDistance.
    replace ((lat point1 - lat point2) * Math_PI / 180 / 2)
      with (- ((lat point2 - lat point1) * Math_PI / 180 / 2))
      by (unfold Rdiv; ring).
    replace ((lng point1 - lng point2) * Math_PI / 180 / 2)
      with (- ((lng point2 - lng point1) * Math_PI / 180 / 2))
      by (unfold Rdiv; ring).
    rewrite !sin_neg.
    set (sa := sin ((lat point2 - lat point1) * Math_PI / 180 / 2)).
    set (sb := sin ((lng point2 - lng point1) * Math_PI / 180 / 2)).
    set (c1 := cos (lat point1 * Math_PI / 180)).
    set (c2 := cos (lat point2 * Math_PI / 180)).
    replace (- sa * - sa + c2 * c1 * - sb * - sb)
      with (sa * sa + c1 * c2 * sb * sb) by ring.
    reflexivity.
  - apply calculateDistance_range.
Qed.

Lemma floor_index r n :
  0 <= r < 1 -> (0 < n)%nat ->
  (0 <= Math_floor (r * IZR (Z.of_nat n)) < Z.of_nat n)%Z.
Proof.
  intros Hr Hn. unfold Math_floor.
  assert (Hn' : 1 <= IZR (Z.of_nat n)) by (apply IZR_le; lia).
  destruct (base_Int_part (r * IZR (Z.of_nat n))) as (Hlo & Hhi).
  split.
  - assert (H : -1 < IZR (Int_part (r * IZR (Z.of_nat n)))) by nra.
    apply lt_IZR in H. lia.
  - apply lt_IZR. nra.
Qed.

Lemma element_at_in_range {A} (xs : list A) i :
  (0 <= i < Z.of_nat (length xs))%Z ->
  exists x, element_at xs i = Some x /\ In x xs.
Proof.
  intros Hi. unfold element_at.
  destruct (i <? 0)%Z eqn:Hneg; [apply Z.ltb_lt in Hneg; lia|].
  destruct (nth_error xs (Z.to_nat i)) as [x|] eqn:Hx.
  - exists x. split; [reflexivity|]. eapply nth_error_In. exact Hx.
  - apply nth_error_None in Hx. lia.
Qed.

Lemma Date_of_later now t : 0 <= t -> (now <= Date_of (IZR now + t))%Z.
Proof.
  intros Ht. unfold Date_of.
  destruct (Rle_dec 0 (IZR now + t)) as [Hp|Hn].
  - pose proof (trunc_nonneg _ Hp) as (_ & Hhi).
    assert (H : IZR now - 1 < IZR (Num.trunc (IZR now + t))) by lra.
    rewrite <- minus_IZR in H. apply lt_IZR in H. lia.
  - assert (Hneg : IZR now + t < 0) by lra.
    pose proof (trunc_neg _ Hneg) as (Hlo & _).
    apply le_IZR. lra.
Qed.


(** ** The initial fleet *)

Lemma createInitialVehicle_fresh name index w :
  fair w ->
  exists v w',
    createInitialVehicle name index w = (Returned v, w') /\
    draws w' = draws w /\ clock w' = clock w /\
    id v = ("v" ++ string_of_nat (index + 1))%string /\
    driverName v = name /\
    freshVehicle (clock w) v.
Proof.
  intros Hfair.
  unfold createInitialVehicle, generateDestination, generateRandomPosition,
    bind, new_Date, Math_random, ret.
  cbn [draws cursor clock console].
  set (c := cursor w).
  pose proof (Hfair (S c)) as H1. pose proof (Hfair (S (S c))) as H2.
  pose proof (Hfair (S (S (S c)))) as H3.
  pose proof (Hfair (S (S (S (S c))))) as H4.
  pose proof (Hfair (S (S (S (S (S c)))))) as H5.
  pose proof (Hfair (S (S (S (S (S (S c))))))) as H6.
  pose proof (Hfair (S (S (S (S (S (S (S c)))))))) as H7.
  pose proof (Hfair (S (S (S (S (S (S (S (S c))))))))) as H8.
  destruct (element_at_in_range addresses
              (Math_floor (draws w (S (S (S (S (S c)))))
                           * IZR (Z.of_nat (length addresses)))))
    as (a & Ha & Hin).
  { apply floor_index; [exact H5|cbn; lia]. }
  rewrite Ha.
  set (p := mkPosition
              (lat BANGALORE_CENTER + (draws w (S c) - 0.5) * 0.2)
              (lng BANGALORE_CENTER + (draws w (S (S c)) - 0.5) * 0.2)).
  set (dlat := lat BANGALORE_CENTER + (draws w (S (S (S c))) - 0.5) * 0.2).
  set (dlng := lng BANGALORE_CENTER + (draws w (S (S (S (S c)))) - 0.5) * 0.2).
  assert (Hspeed :
            30 <= Math_min 100 (30 + draws w (S (S (S (S (S (S c)))))) * 30) <= 60)
    by (unfold Math_min, Rmin; destruct Rle_dec; lra).
  assert (Hheading :
            0 <= ((Math_atan2 (dlng - lng p) (dlat - lat p) * 180) / Math_PI + 360)
                 %% 360 < 360).
  { apply rem_nonneg.
    pose proof (atan2_range (dlng - lng p) (dlat - lat p)) as Hrange.
    pose proof PI_RGT_0 as Hpi. unfold Math_PI.
    assert (Hdeg : -180 < Math_atan2 (dlng - lng p) (dlat - lat p) * 180 / PI).
    { apply Rmult_lt_reg_r with PI; [exact Hpi|].
      unfold Rdiv. rewrite Rmult_assoc, Rinv_l by lra. lra. }
    lra. }
  assert (Heta :
            (clock w <=
             Date_of
               (IZR (clock w)
                + calculateDistance p (mkPosition dlat dlng)
                  / (35 + draws w (S (S (S (S (S (S (S c))))))) * 10)
                  * 60 * 60 * 1000))%Z).
  { apply Date_of_later.
    pose proof (calculateDistance_range p (mkPosition dlat dlng)) as Hdist.
    assert (Hinv : 0 < / (35 + draws w (S (S (S (S (S (S (S c))))))) * 10))
      by (apply Rinv_0_lt_compat; lra).
    unfold Rdiv. nra. }
  assert (Hp : aroundCenter (lat p) (lng p))
    by (unfold aroundCenter, p; cbn [lat lng]; lra).
  assert (Hd : aroundCenter dlat dlng)
    by (unfold aroundCenter, dlat, dlng; lra).
  destruct (element_at cargoTypes _) as [[| |]|];
    (eexists _, _; split; [reflexivity|];
     split; [reflexivity|]; split; [reflexivity|];
     split; [reflexivity|]; split; [reflexivity|];
     unfold freshVehicle;
     cbn [position destination currentSpeed heading scheduledETA
          cargoTemperature lastStopTime status statusHistory route
          dest_lat dest_lng address lat lng];
     split; [exact Hp|];
     split; [eexists; split; [reflexivity|]; split; [exact Hd|exact Hin]|];
     split; [exact Hspeed|];
     split; [exact Hheading|];
     split; [eexists; split; [reflexivity|exact Heta]|];
     split; [try exact I; cbn [draws cursor]; lra|];
     repeat split).
Qed.

Lemma mapInitialVehicles_fresh names :
  forall index w,
    fair w ->
    exists vs w',
      mapInitialVehicles names index w = (Returned vs, w') /\
      draws w' = draws w /\ clock w' = clock w /\
      map driverName vs = names /\
      map id vs
      = map (fun k => ("v" ++ string_of_nat (k + 1))%string)
          (seq index (length names)) /\
      Forall (freshVehicle (clock w)) vs.
Proof.
  induction names as [|name rest IH]; intros index w Hfair.
  - exists [], w. repeat split; constructor.
  - destruct (createInitialVehicle_fresh name index w Hfair)
      as (v & w1 & Hrun & Hdraws & Hclock & Hid & Hname & Hv).
    assert (Hfair1 : fair w1) by (unfold fair; rewrite Hdraws; exact Hfair).
    destruct (IH (S index) w1 Hfair1)
      as (vs & w2 & Hruns & Hdraws2 & Hclock2 & Hnames & Hids & Hvs).
    exists (v :: vs), w2.
    split.
    { cbn [mapInitialVehicles]. unfold bind at 1. rewrite Hrun.
      unfold bind at 1. rewrite Hruns. reflexivity. }
    split; [congruence|]. split; [congruence|].
    split; [cbn [map]; congruence|].
    split; [cbn [map length seq]; congruence|].
    constructor; [exact Hv|]. rewrite <- Hclock. exact Hvs.
Qed.

(** X17: With draws from [Math.random] the initial fleet is made of 12
    vehicles, [v1] to [v12], one per driver name in order, each with a
    position and a destination at most 0.1 degree from the centre, a
    destination address from the list, a speed from 30 to 60 and a cargo
    temperature from 2 to 6 if it has one (both ends included), a heading
    from 0 up to but not 360, a scheduled arrival not before the time of
    creation, no route, an empty history, no stop time and status
    on time. *)
Theorem createInitialVehicles_fleet w :
  fair w ->
  exists vs w',
    createInitialVehicles w = (Returned vs, w') /\
    length vs = 12%nat /\
    map id vs
    = ["v1"; "v2"; "v3"; "v4"; "v5"; "v6";
       "v7"; "v8"; "v9"; "v10"; "v11"; "v12"]%string /\
    map driverName vs = driverNames /\
    Forall (freshVehicle (clock w)) vs.
Proof.
  intros Hfair.
  destruct (mapInitialVehicles_fresh driverNames 0%nat w Hfair)
    as (vs & w' & Hrun & _ & _ & Hnames & Hids & Hvs).
  exists vs, w'. split; [exact Hrun|].
  split; [rewrite <- (length_map id), Hids; reflexivity|].
  split; [rewrite Hids; reflexivity|].
  split; [exact Hnames|exact Hvs].
Qed.

(** ** Histories over the ticks *)

Lemma StronglySorted_skipn {A} (R : A -> A -> Prop) n :
  forall l, StronglySorted R l -> StronglySorted R (skipn n l).
Proof.
  induction n as [|n IH]; intros l Hl; [exact Hl|].
  destruct l as [|x l]; [exact Hl|].
  cbn [skipn]. apply IH. inversion Hl; assumption.
Qed.

Lemma Forall_skipn {A} (P : A -> Prop) n :
  forall l, Forall P l -> Forall P (skipn n l).
Proof.
  induction n as [|n IH]; intros l Hl; [exact Hl|].
  destruct l as [|x l]; [exact Hl|].
  cbn [skipn]. apply IH. inversion Hl; assumption.
Qed.

Lemma StronglySorted_snoc h t :
  StronglySorted Z.lt h ->
  Forall (fun x => (x < t)%Z) h ->
  StronglySorted Z.lt (h ++ [t]).
Proof.
  intros Hs Hall. induction Hs as [|x l Hl IH Hx]; cbn [app].
  - repeat constructor.
  - inversion Hall as [|? ? Hxt Hlt]; subst.
    constructor; [apply IH; exact Hlt|].
    apply Forall_app. split; [exact Hx|repeat constructor; exact Hxt].
Qed.

Lemma updatedHistory_chronological now c v :
  chronological c v -> (c < now)%Z ->
  StronglySorted Z.lt (map timestamp (updatedHistory now v)) /\
  Forall (fun e => (timestamp e <= now)%Z) (updatedHistory now v).
Proof.
  intros (Hsorted & Hold) Hlt.
  unfold updatedHistory, slice_last. split.
  - rewrite <- skipn_map. apply StronglySorted_skipn.
    rewrite map_app. cbn [map newHistoryEntry timestamp].
    apply StronglySorted_snoc; [exact Hsorted|].
    apply Forall_map. eapply Forall_impl; [|exact Hold].
    cbv beta. intros e He. lia.
  - apply Forall_skipn. apply Forall_app. split.
    + eapply Forall_impl; [|exact Hold]. cbv beta. intros e He. lia.
    + repeat constructor. cbn [newHistoryEntry timestamp]. lia.
Qed.

Section Fleet.

Variable calculateNewPosition : Position -> R -> R -> Position.
Variable calculateVehicleStatus : Z -> Vehicle -> VehicleStatus.

Lemma chronological_step c v w :
  hasDestination v -> chronological c v -> (c < clock w)%Z ->
  exists v' w',
    simulateGPSUpdate calculateNewPosition calculateVehicleStatus v w
    = (Returned v', w') /\
    clock w' = clock w /\
    hasDestination v' /\ chronological (clock w) v'.
Proof.
  intros Hv Hchron Hlt. destruct (hasDestination_Some v Hv) as (d & Hd).
  destruct (simulateGPSUpdate_stages calculateNewPosition calculateVehicleStatus
              v d w Hd)
    as (s & w1 & p & h & w2 & _ & _ & _ & _ & _ & Hclock & _ & Hrun).
  pose proof (updatedHistory_chronological (clock w) c v Hchron Hlt) as Hnew.
  rewrite Hrun, driftCargoTemperature_eval.
  cbn [cargoTemperature set_status assembled].
  destruct (cargoTemperature v) as [t|];
    (eexists _, _; split; [reflexivity|];
     unfold hasDestination, chronological, existingHistory;
     cbn [clock destination statusHistory set_cargoTemperature set_status
          assembled];
     split; [exact Hclock|]; split; [exact Hv|exact Hnew]).
Qed.

Lemma simulateAllVehicles_at_clock (P Q : Vehicle -> Prop) c :
  (forall v w, P v -> clock w = c ->
     exists v' w',
       simulateGPSUpdate calculateNewPosition calculateVehicleStatus v w
       = (Returned v', w') /\ clock w' = c /\ Q v') ->
  forall vs w,
    Forall P vs -> clock w = c ->
    exists vs' w',
      simulateAllVehicles calculateNewPosition calculateVehicleStatus vs w
      = (Returned vs', w') /\
      clock w' = c /\ Forall Q vs'.
Proof.
  intros Hstep.
  induction vs as [|v rest IH]; intros w Hall Hc.
  - exists [], w. split; [reflexivity|]. split; [exact Hc|constructor].
  - inversion Hall as [|? ? Hv Hrest]; subst.
    destruct (Hstep v w Hv eq_refl) as (v' & w1 & Hrun & Hc1 & Hq).
    destruct (IH w1 Hrest Hc1) as (rest' & w2 & Hruns & Hc2 & Hqs).
    exists (v' :: rest'), w2.
    split; [|split; [exact Hc2|constructor; assumption]].
    cbn [simulateAllVehicles]. unfold bind at 1. rewrite Hrun.
    unfold bind at 1. rewrite Hruns. reflexivity.
Qed.

(** X14: Histories stay in chronological order: when every vehicle has a
    destination and a history with strictly increasing timestamps, none
    later than the clock, the same holds after any number of ticks, with
    the clock 4000 ms further at every tick. *)
Theorem histories_stay_chronological ticks :
  forall vs w,
    Forall (fun v => hasDestination v /\ chronological (clock w) v) vs ->
    Forall (fun v => hasDestination v /\
                     chronological (clock w + 4000 * Z.of_nat ticks) v)
      (fst (runSimulation calculateNewPosition calculateVehicleStatus
              ticks vs w)).
Proof.
  induction ticks as [|n IH]; intros vs w Hall.
  - cbn [runSimulation fst]. rewrite Z.mul_0_r, Z.add_0_r. exact Hall.
  - cbn [runSimulation]. unfold intervalCallback.
    destruct (simulateAllVehicles_at_clock
                (fun v => hasDestination v /\ chronological (clock w) v)
                (fun v => hasDestination v /\
                          chronological (clock w + 4000) v)
                (clock w + 4000)%Z) with (vs := vs) (w := elapse 4000 w)
      as (vs' & w' & Hrun & Hclock & Hq).
    + intros v w0 (Hv & Hchron) Hc.
      destruct (chronological_step (clock w) v w0 Hv Hchron ltac:(lia))
        as (v' & w1 & Hstep & Hc1 & Hv' & Hchron').
      exists v', w1. rewrite Hc in *. auto.
    + exact Hall.
    + reflexivity.
    + rewrite Hrun.
      replace (clock w + 4000 * Z.of_nat (S n))%Z
        with (clock w' + 4000 * Z.of_nat n)%Z by lia.
      apply IH. rewrite Hclock. exact Hq.
Qed.


(** A tick more is the callback run once more on the store the earlier
    ticks left. *)
Lemma runSimulation_next ticks :
  forall vs w,
    runSimulation calculateNewPosition calculateVehicleStatus (S ticks) vs w
    = intervalCallback calculateNewPosition calculateVehicleStatus
        (fst (runSimulation calculateNewPosition calculateVehicleStatus
                ticks vs w))
        (elapse 4000
           (snd (runSimulation calculateNewPosition calculateVehicleStatus
                   ticks vs w))).
Proof.
  induction ticks as [|n IH]; intros vs w.
  - cbn [runSimulation fst snd].
    destruct (intervalCallback _ _ vs (elapse 4000 w)); reflexivity.
  - change (runSimulation calculateNewPosition calculateVehicleStatus
              (S (S n)) vs w)
      with (let '(updatedVehicles, w') :=
              intervalCallback calculateNewPosition calculateVehicleStatus
                vs (elapse 4000 w) in
            runSimulation calculateNewPosition calculateVehicleStatus
              (S n) updatedVehicles w').
    change (runSimulation calculateNewPosition calculateVehicleStatus
              (S n) vs w)
      with (let '(updatedVehicles, w') :=
              intervalCallback calculateNewPosition calculateVehicleStatus
                vs (elapse 4000 w) in
            runSimulation calculateNewPosition calculateVehicleStatus
              n updatedVehicles w').
    destruct (intervalCallback _ _ vs (elapse 4000 w)) as (vs1, w1).
    apply IH.
Qed.

(** An update of a vehicle that has been through [n] ticks returns, and
    the vehicle it returns has been through one more. *)
Lemma recorded_step n v w :
  recorded n v ->
  exists v' w',
    simulateGPSUpdate calculateNewPosition calculateVehicleStatus v w
    = (Returned v', w') /\
    clock w' = clock w /\
    recorded (S n) v' /\
    0 <= currentSpeed v' <= 98 /\ 0 <= heading v' < 360.
Proof.
  intros (Hv & entries & Hentries & Hlen).
  destruct (hasDestination_Some v Hv) as (d & Hd).
  destruct (simulateGPSUpdate_stages calculateNewPosition calculateVehicleStatus
              v d w Hd)
    as (s & w1 & p & h & w2 & _ & Hs & _ & _ & _ & Hclock & _ & Hrun).
  assert (Hnew :
    length (updatedHistory (clock w) v) = Nat.min (S n) 450).
  { unfold updatedHistory, slice_last, existingHistory. rewrite Hentries.
    rewrite length_skipn, length_app. cbn [length]. lia. }
  pose proof (arrivalSpeed_bounds
                (flatEarthMetres (dest_lat d) (dest_lng d) (lat p) (lng p))
                s Hs) as Hspeed.
  pose proof (normalizeHeading_range h) as Hheading.
  rewrite Hrun, driftCargoTemperature_eval.
  cbn [cargoTemperature set_status assembled].
  destruct (cargoTemperature v) as [t|];
    (eexists _, _; split; [reflexivity|];
     unfold recorded, hasDestination;
     cbn [clock destination statusHistory currentSpeed heading
          set_cargoTemperature set_status assembled];
     split; [exact Hclock|];
     split; [split; [exact Hv|eexists; split; [reflexivity|exact Hnew]]|];
     split; [exact Hspeed|exact Hheading]).
Qed.

(** From a store of vehicles that have been through [n] ticks, every
    further tick returns: after [ticks] more the vehicles have been through
    [ticks + n], and the clock is 4000 ms further for each. *)
Lemma runSimulation_recorded ticks :
  forall n vs w,
    Forall (recorded n) vs ->
    Forall (recorded (ticks + n))
      (fst (runSimulation calculateNewPosition calculateVehicleStatus
              ticks vs w)) /\
    clock (snd (runSimulation calculateNewPosition calculateVehicleStatus
                  ticks vs w))
    = (clock w + 4000 * Z.of_nat ticks)%Z.
Proof.
  induction ticks as [|k IH]; intros n vs w Hall.
  - cbn [runSimulation fst snd plus]. split; [exact Hall|lia].
  - cbn [runSimulation]. unfold intervalCallback.
    destruct (simulateAllVehicles_at_clock (recorded n) (recorded (S n))
                (clock w + 4000)%Z) with (vs := vs) (w := elapse 4000 w)
      as (vs' & w' & Hrun & Hclock & Hq).
    + intros v w0 Hv Hc.
      destruct (recorded_step n v w0 Hv) as (v' & w1 & Hstep & Hc1 & Hv' & _).
      exists v', w1. split; [exact Hstep|]. split; [congruence|exact Hv'].
    + exact Hall.
    + reflexivity.
    + rewrite Hrun. destruct (IH (S n) vs' w' Hq) as (Hvs & Hc).
      split.
      * replace (S k + n)%nat with (k + S n)%nat by lia. exact Hvs.
      * rewrite Hc, Hclock. lia.
Qed.

(** X18: The simulation run on the initial fleet never throws.  With draws
    from [Math.random] the fleet is created, and whatever the number of
    ticks already run, the next tick returns too and its vehicles are the
    store after it.  After [ticks] ticks the clock is 4000 ms further for
    each, the store holds the 12 vehicles [v1] to [v12] with their drivers,
    destinations and schedules, and every vehicle has one history entry
    per tick, up to 450: every tick has written its update.  After at
    least one tick each has a speed between 0 and 98 and a heading from 0
    up to 360. *)
Theorem initial_fleet_simulation ticks w :
  fair w ->
  exists vs w1 vs' w' vs'' w'',
    createInitialVehicles w = (Returned vs, w1) /\
    runSimulation calculateNewPosition calculateVehicleStatus ticks vs w1
    = (vs', w') /\
    simulateAllVehicles calculateNewPosition calculateVehicleStatus
      vs' (elapse 4000 w') = (Returned vs'', w'') /\
    runSimulation calculateNewPosition calculateVehicleStatus (S ticks) vs w1
    = (vs'', w'') /\
    clock w' = (clock w + 4000 * Z.of_nat ticks)%Z /\
    map id vs'
    = ["v1"; "v2"; "v3"; "v4"; "v5"; "v6";
       "v7"; "v8"; "v9"; "v10"; "v11"; "v12"]%string /\
    Forall2 sameIdentity vs vs' /\
    Forall (fun v => exists entries,
                       statusHistory v = Some entries /\
                       length entries = Nat.min ticks 450) vs' /\
    ((0 < ticks)%nat ->
     Forall (fun v => 0 <= currentSpeed v <= 98 /\ 0 <= heading v < 360) vs').
Proof.
  intros Hfair.
  destruct (mapInitialVehicles_fresh driverNames 0%nat w Hfair)
    as (vs & w1 & Hrun & _ & Hclock & _ & Hids & Hvs).
  assert (Hstart : Forall (recorded 0) vs).
  { eapply Forall_impl; [|exact Hvs].
    intros v (_ & (d & Hd & _) & _ & _ & _ & _ & _ & _ & Hhist & _).
    unfold recorded, hasDestination. rewrite Hd, Hhist.
    split; [discriminate|]. exists []. split; reflexivity. }
  assert (Hdest : Forall hasDestination vs).
  { eapply Forall_impl; [|exact Hstart]. intros v (Hv & _). exact Hv. }
  destruct (runSimulation_recorded ticks 0%nat vs w1 Hstart) as (Hafter & Hc).
  rewrite Nat.add_0_r in Hafter.
  destruct (runSimulation_Forall2 calculateNewPosition calculateVehicleStatus
              hasDestination sameIdentity
              (update_identity_step calculateNewPosition calculateVehicleStatus)
              sameIdentity_refl sameIdentity_trans ticks vs w1 Hdest)
    as (Hrel & _).
  pose proof (runSimulation_next ticks vs w1) as Hnext.
  destruct ticks as [|n].
  - cbn [runSimulation fst snd] in *.
    destruct (simulateAllVehicles_at_clock (recorded 0) (recorded 1)
                (clock w1 + 4000)%Z) with (vs := vs) (w := elapse 4000 w1)
      as (vs'' & w'' & Hlast & _ & _).
    { intros v w0 Hv Hc0.
      destruct (recorded_step 0%nat v w0 Hv) as (v' & w2 & Hstep & Hc2 & Hv' & _).
      exists v', w2. split; [exact Hstep|]. split; [congruence|exact Hv']. }
    { exact Hstart. }
    { reflexivity. }
    exists vs, w1, vs, w1, vs'', w''.
    split; [exact Hrun|]. split; [reflexivity|]. split; [exact Hlast|].
    split; [unfold intervalCallback; rewrite Hlast; reflexivity|].
    split; [lia|]. split; [rewrite Hids; reflexivity|].
    split; [exact Hrel|].
    split; [|intros Hpos; lia].
    eapply Forall_impl; [|exact Hstart]. intros v (_ & Hv). exact Hv.
  - pose proof (invariants_after_ticks calculateNewPosition
                  calculateVehicleStatus n vs w1 Hdest) as Hbounds.
    destruct (runSimulation calculateNewPosition calculateVehicleStatus
                (S n) vs w1) as (vs', w') eqn:Hticks.
    cbn [fst snd] in Hafter, Hc, Hrel, Hnext, Hbounds.
    destruct (simulateAllVehicles_at_clock (recorded (S n))
                (recorded (S (S n))) (clock w' + 4000)%Z)
      with (vs := vs') (w := elapse 4000 w')
      as (vs'' & w'' & Hlast & _ & _).
    { intros v w0 Hv Hc0.
      destruct (recorded_step (S n) v w0 Hv)
        as (v' & w2 & Hstep & Hc2 & Hv' & _).
      exists v', w2. split; [exact Hstep|]. split; [congruence|exact Hv']. }
    { exact Hafter. }
    { reflexivity. }
    exists vs, w1, vs', w', vs'', w''.
    split; [exact Hrun|]. split; [exact Hticks|]. split; [exact Hlast|].
    split; [rewrite Hnext; unfold intervalCallback; rewrite Hlast; reflexivity|].
    split; [rewrite Hc; lia|].
    split.
    { transitivity (map id vs); [|rewrite Hids; reflexivity].
      clear - Hrel. induction Hrel as [|a b l l' (Hid & _) _ IH];
        [reflexivity|cbn [map]; congruence]. }
    split; [exact Hrel|].
    split.
    { eapply Forall_impl; [|exact Hafter]. intros v (_ & Hv). exact Hv. }
    intros _. eapply Forall_impl; [|exact Hbounds].
    intros v (Hspeed & Hheading & _). split; assumption.
Qed.

End Fleet.

(** ** The simulation timer *)

Lemma remove_only {A} (dec : forall x y : A, {x = y} + {x <> y}) h l :
  Forall (fun x => x = h) l -> remove dec h l = [].
Proof.
  intros Hall. induction Hall as [|x l Hx _ IH]; [reflexivity|].
  cbn [remove]. destruct (dec h x) as [_|Hne]; [exact IH|congruence].
Qed.

Lemma sequential_invariant calls :
  forall t,
    Forall (fun h => Timer.simulationInterval t = Some h)
      (Timer.activeIntervals t) ->
    (length (Timer.activeIntervals t) <= 1)%nat ->
    let t' := Timer.run (Timer.sequential calls) t in
    Forall (fun h => Timer.simulationInterval t' = Some h)
      (Timer.activeIntervals t') /\
    (length (Timer.activeIntervals t') <= 1)%nat /\
    match rev calls with
    | true :: _ =>
        exists h, Timer.activeIntervals t' = [h] /\
                  Timer.simulationInterval t' = Some h
    | false :: _ =>
        Timer.activeIntervals t' = [] /\ Timer.simulationInterval t' = None
    | [] => t' = t
    end.
Proof.
  induction calls as [|call rest IH] using rev_ind; intros t Hall Hlen.
  - cbn. auto.
  - cbv zeta. unfold Timer.sequential. rewrite flat_map_app.
    unfold Timer.run. rewrite fold_left_app.
    fold (Timer.sequential rest). fold (Timer.run (Timer.sequential rest) t).
    destruct (IH t Hall Hlen) as (Hall' & Hlen' & _).
    set (t1 := Timer.run (Timer.sequential rest) t) in *.
    rewrite rev_app_distr. cbn [rev app flat_map].
    destruct call; cbn [app fold_left Timer.step].
    + assert (Hcleared :
        Timer.activeIntervals (Timer.startGPSSimulation_called t1) = []).
      { unfold Timer.startGPSSimulation_called.
        destruct (Timer.simulationInterval t1) as [h|] eqn:Hsel.
        - cbn [Timer.clearInterval Timer.activeIntervals].
          apply remove_only. eapply Forall_impl; [|exact Hall'].
          cbv beta. intros x Hx. congruence.
        - destruct (Timer.activeIntervals t1) as [|x l]; [reflexivity|].
          inversion Hall'; discriminate. }
      unfold Timer.startGPSSimulation_resumed, Timer.setInterval.
      cbn [Timer.activeIntervals Timer.simulationInterval Timer.nextHandle].
      rewrite Hcleared.
      split; [repeat constructor|]. split; [cbn; lia|].
      eexists. split; reflexivity.
    + unfold Timer.stopGPSSimulation.
      destruct (Timer.simulationInterval t1) as [h|] eqn:Hsel.
      * cbn [Timer.clearInterval Timer.activeIntervals Timer.simulationInterval].
        assert (Hnone : remove Nat.eq_dec h (Timer.activeIntervals t1) = []).
        { apply remove_only. eapply Forall_impl; [|exact Hall'].
          cbv beta. intros x Hx. congruence. }
        rewrite Hnone. split; [constructor|]. split; [cbn; lia|].
        split; reflexivity.
      * assert (Hnone : Timer.activeIntervals t1 = []).
        { destruct (Timer.activeIntervals t1) as [|x l]; [reflexivity|].
          inversion Hall'; discriminate. }
        rewrite Hnone, Hsel. split; [constructor|]. split; [cbn; lia|].
        split; reflexivity.
Qed.

(** X24: When every start has resumed before the next call, at most one
    interval runs at any time: after a start exactly the one that
    [simulationInterval] remembers, after a stop none. *)
Theorem sequential_use_keeps_one_interval calls t :
  Timer.idle t ->
  let t' := Timer.run (Timer.sequential calls) t in
  (length (Timer.activeIntervals t') <= 1)%nat /\
  match rev calls with
  | true :: _ =>
      exists h, Timer.activeIntervals t' = [h] /\
                Timer.simulationInterval t' = Some h
  | false :: _ =>
      Timer.activeIntervals t' = [] /\ Timer.simulationInterval t' = None
  | [] => t' = t
  end.
Proof.
  intros (Hsel & Hact).
  destruct (sequential_invariant calls t) as (_ & Hlen & Hlast).
  - rewrite Hact. constructor.
  - rewrite Hact. cbn. lia.
  - split; [exact Hlen|exact Hlast].
Qed.

Lemma step_wellFormed t e :
  Timer.wellFormed t -> Timer.wellFormed (Timer.step t e).
Proof.
  intros (Hact & Hsel). unfold Timer.wellFormed.
  assert (Hremove : forall h,
    Forall (fun x => (x < Timer.nextHandle t)%nat)
      (remove Nat.eq_dec h (Timer.activeIntervals t))).
  { intros h. apply Forall_forall. intros x Hx. apply in_remove in Hx.
    rewrite Forall_forall in Hact. apply Hact. apply Hx. }
  destruct e; cbn [Timer.step].
  - unfold Timer.startGPSSimulation_called.
    destruct (Timer.simulationInterval t) as [h|] eqn:Hs.
    + cbn. rewrite Hs. split; [apply Hremove|exact Hsel].
    + rewrite Hs. split; [exact Hact|exact I].
  - unfold Timer.startGPSSimulation_resumed, Timer.setInterval. cbn.
    split; [|lia]. constructor; [lia|].
    eapply Forall_impl; [|exact Hact]. cbv beta. intros; lia.
  - unfold Timer.stopGPSSimulation.
    destruct (Timer.simulationInterval t) as [h|] eqn:Hs.
    + cbn. split; [apply Hremove|exact I].
    + rewrite Hs. split; [exact Hact|exact I].
Qed.

Lemma step_keeps_lost t e h :
  Timer.wellFormed t ->
  In h (Timer.activeIntervals t) ->
  Timer.simulationInterval t <> Some h ->
  In h (Timer.activeIntervals (Timer.step t e)) /\
  Timer.simulationInterval (Timer.step t e) <> Some h.
Proof.
  intros (Hact & Hsel) Hin Hlost.
  assert (Hlt : (h < Timer.nextHandle t)%nat)
    by (rewrite Forall_forall in Hact; apply Hact; exact Hin).
  destruct e; cbn [Timer.step].
  - unfold Timer.startGPSSimulation_called.
    destruct (Timer.simulationInterval t) as [k|] eqn:Hs.
    + cbn. rewrite Hs. split; [|exact Hlost].
      apply in_in_remove; [congruence|exact Hin].
    + rewrite Hs. split; [exact Hin|discriminate].
  - unfold Timer.startGPSSimulation_resumed, Timer.setInterval. cbn.
    split; [right; exact Hin|]. intros Heq. injection Heq as Heq. lia.
  - unfold Timer.stopGPSSimulation.
    destruct (Timer.simulationInterval t) as [k|] eqn:Hs.
    + cbn. split; [|discriminate].
      apply in_in_remove; [congruence|exact Hin].
    + rewrite Hs. split; [exact Hin|discriminate].
Qed.

Lemma lost_interval_never_cleared_aux events :
  forall t h,
    Timer.wellFormed t ->
    In h (Timer.activeIntervals t) ->
    Timer.simulationInterval t <> Some h ->
    In h (Timer.activeIntervals (Timer.run events t)) /\
    Timer.simulationInterval (Timer.run events t) <> Some h.
Proof.
  induction events as [|e rest IH]; intros t h Hwf Hin Hlost.
  - split; [exact Hin|exact Hlost].
  - cbn [Timer.run fold_left].
    destruct (step_keeps_lost t e h Hwf Hin Hlost) as (Hin' & Hlost').
    apply (IH (Timer.step t e) h (step_wellFormed t e Hwf) Hin' Hlost').
Qed.


(** X25: An interval that is running but that [simulationInterval] no longer
    remembers is never cleared: it keeps running, and stays forgotten,
    whatever calls to start and stop follow. *)
Theorem lost_interval_never_cleared events t h :
  Timer.wellFormed t ->
  In h (Timer.activeIntervals t) ->
  Timer.simulationInterval t <> Some h ->
  In h (Timer.activeIntervals (Timer.run events t)) /\
  Timer.simulationInterval (Timer.run events t) <> Some h /\
  Timer.wellFormed (Timer.run events t).
Proof.
  intros Hwf Hin Hlost.
  destruct (lost_interval_never_cleared_aux events t h Hwf Hin Hlost)
    as (Hin' & Hlost').
  split; [exact Hin'|]. split; [exact Hlost'|].
  clear Hin Hlost Hin' Hlost'. revert t Hwf.
  induction events as [|e rest IH]; intros t Hwf; [exact Hwf|].
  cbn [Timer.run fold_left]. apply IH. apply step_wellFormed. exact Hwf.
Qed.

(** X26: Two calls to start whose continuations both run after the second call
    leave two intervals running, of which only the second is remembered:
    the first survives the next stop and everything after it. *)
Theorem overlapping_starts_lose_an_interval t events :
  Timer.idle t ->
  let overlapped :=
    Timer.run [Timer.StartCalled; Timer.StartCalled;
               Timer.StartResumed; Timer.StartResumed] t in
  Timer.activeIntervals overlapped
  = [S (Timer.nextHandle t); Timer.nextHandle t] /\
  Timer.simulationInterval overlapped = Some (S (Timer.nextHandle t)) /\
  In (Timer.nextHandle t)
    (Timer.activeIntervals (Timer.run (Timer.StopCalled :: events) overlapped)).
Proof.
  intros (Hsel & Hact).
  assert (Hrun :
    Timer.run [Timer.StartCalled; Timer.StartCalled;
               Timer.StartResumed; Timer.StartResumed] t
    = Timer.mkTimers (Some (S (Timer.nextHandle t)))
        [S (Timer.nextHandle t); Timer.nextHandle t]
        (S (S (Timer.nextHandle t)))).
  { destruct t as [sel act next].
    cbn [Timer.simulationInterval Timer.activeIntervals] in Hsel, Hact.
    subst sel act. reflexivity. }
  cbv zeta. rewrite Hrun. split; [reflexivity|]. split; [reflexivity|].
  apply lost_interval_never_cleared_aux.
  - split; cbn; [repeat constructor; lia|lia].
  - cbn. right. left. reflexivity.
  - cbn. intros Heq. injection Heq as Heq. lia.
Qed.

(** ** Witnesses of the further properties *)

Lemma calmWorld_fair : fair calmWorld.
Proof. intros n. cbn. lra. Qed.

Lemma sampleFleet_hasDestination : Forall hasDestination sampleFleet.
Proof. repeat constructor; discriminate. Qed.

Lemma calculateNewPosition_flat_0 p h : calculateNewPosition_flat p 0 h = p.
Proof.
  destruct p as [plat plng]. unfold calculateNewPosition_flat. cbn [lat lng].
  f_equal; unfold Rdiv; ring.
Qed.

Lemma update_draw_count_witness :
  exists v' w',
    simulateGPSUpdate calculateNewPosition_flat calculateVehicleStatus_schedule
      refrigeratedVehicle calmWorld = (Returned v', w') /\
    draws w' = draws calmWorld /\
    clock w' = clock calmWorld /\
    cursor w' = 5%nat.
Proof.
  destruct (update_draw_count calculateNewPosition_flat
              calculateVehicleStatus_schedule refrigeratedVehicle mgRoad
              calmWorld eq_refl) as (v' & w' & Hrun & Hdraws & Hclock & Hcur).
  exists v', w'. split; [exact Hrun|]. split; [exact Hdraws|].
  split; [exact Hclock|]. rewrite Hcur.
  cbn [calmWorld draws cursor plus hasRoute route refrigeratedVehicle truthy
       cargoTemperature].
  rewrite (proj2 (ltb_false 0.5 0.02)) by lra. reflexivity.
Defined.

Lemma update_keeps_identity_witness :
  exists v' w',
    simulateGPSUpdate calculateNewPosition_flat calculateVehicleStatus_schedule
      endOfRouteVehicle calmWorld = (Returned v', w') /\
    sameIdentity endOfRouteVehicle v'.
Proof.
  apply (update_keeps_identity calculateNewPosition_flat
           calculateVehicleStatus_schedule endOfRouteVehicle
           (mkDestination 3 1 "Whitefield, Bangalore, Karnataka") calmWorld).
  reflexivity.
Defined.

Lemma stopped_exactly_on_arrival_witness :
  destination arrivingVehicle = Some mgRoad /\
  exists v' w',
    simulateGPSUpdate calculateNewPosition_flat calculateVehicleStatus_schedule
      arrivingVehicle calmWorld = (Returned v', w') /\
    currentSpeed v' = 0 /\
    lastStopTime v' = Some 0%Z.
Proof.
  split; [reflexivity|].
  destruct (stopped_exactly_on_arrival calculateNewPosition_flat
              calculateVehicleStatus_schedule arrivingVehicle mgRoad calmWorld
              eq_refl)
    as (s & w1 & p & h & w2 & v' & w' & _ & Hmove & Hrun & Hzero & Hstop & _).
  exists v', w'. split; [exact Hrun|].
  rewrite (moveTowardTarget_direct calculateNewPosition_flat arrivingVehicle
             mgRoad _ w1 eq_refl eq_refl) in Hmove.
  injection Hmove as Hp _ _.
  assert (Hnear :
    flatEarthMetres (dest_lat mgRoad) (dest_lng mgRoad) (lat p) (lng p) < 100).
  { rewrite <- Hp.
    assert (Hkm : distanceKm arrivingVehicle = 0)
      by (unfold distanceKm; cbn [currentSpeed arrivingVehicle]; lra).
    rewrite Hkm, calculateNewPosition_flat_0.
    cbn [lat lng position arrivingVehicle dest_lat dest_lng mgRoad].
    rewrite flatEarthMetres_same_lng.
    rewrite Rabs_right by lra. lra. }
  split; [apply Hzero; exact Hnear|apply Hstop; exact Hnear].
Defined.


Lemma simulateAllVehicles_pointwise_witness :
  exists vs' w',
    simulateAllVehicles calculateNewPosition_flat calculateVehicleStatus_schedule
      sampleFleet calmWorld = (Returned vs', w') /\
    Forall2 sameIdentity sampleFleet vs' /\
    length vs' = 3%nat /\
    map id vs' = ["v1"; "v3"; "v5"]%string.
Proof.
  apply (simulateAllVehicles_pointwise calculateNewPosition_flat
           calculateVehicleStatus_schedule sampleFleet calmWorld).
  exact sampleFleet_hasDestination.
Defined.

Lemma missing_destination_freezes_fleet_witness :
  fst (runSimulation calculateNewPosition_flat calculateVehicleStatus_schedule
         10 [scenarioVehicle; lostVehicle] calmWorld)
  = [scenarioVehicle; lostVehicle].
Proof.
  apply (missing_destination_freezes_fleet calculateNewPosition_flat
           calculateVehicleStatus_schedule 10 [scenarioVehicle; lostVehicle]
           calmWorld).
  right. left. reflexivity.
Defined.

Lemma fleet_after_ticks_witness :
  let vs' :=
    fst (runSimulation calculateNewPosition_flat calculateVehicleStatus_schedule
           3 sampleFleet calmWorld) in
  Forall2 sameIdentity sampleFleet vs' /\
  map id vs' = ["v1"; "v3"; "v5"]%string /\
  ((0 < 3)%nat ->
   Forall (fun v => 0 <= currentSpeed v <= 98 /\
                    0 <= heading v < 360 /\
                    (length (existingHistory v) <= 450)%nat) vs').
Proof.
  apply (fleet_after_ticks calculateNewPosition_flat
           calculateVehicleStatus_schedule 3 sampleFleet calmWorld).
  exact sampleFleet_hasDestination.
Defined.

Lemma parked_fleet_stays_parked_witness :
  Forall parked
    (fst (runSimulation calculateNewPosition_flat
            calculateVehicleStatus_schedule 5 [parkedVehicle] calmWorld)) /\
  map position
    (fst (runSimulation calculateNewPosition_flat
            calculateVehicleStatus_schedule 5 [parkedVehicle] calmWorld))
  = [mkPosition 12.98 77.60].
Proof.
  apply (parked_fleet_stays_parked calculateNewPosition_flat
           calculateVehicleStatus_schedule calculateNewPosition_flat_0
           5 [parkedVehicle] calmWorld).
  constructor; [|constructor].
  exists mgRoad. repeat split.
Defined.

Lemma findClosestRoutePoint_nearest_first_witness :
  exists p,
    nth_error threePoints
      (Z.to_nat (findClosestRoutePoint (mkPosition 2 0) (Some threePoints)))
    = Some p /\
    (forall q, In q threePoints ->
       distanceFrom (mkPosition 2 0) p <= distanceFrom (mkPosition 2 0) q) /\
    (forall k q,
       nth_error threePoints k = Some q ->
       (Z.of_nat k < findClosestRoutePoint (mkPosition 2 0) (Some threePoints))%Z ->
       distanceFrom (mkPosition 2 0) p < distanceFrom (mkPosition 2 0) q).
Proof.
  apply (findClosestRoutePoint_nearest_first (mkPosition 2 0) threePoints).
  discriminate.
Defined.

Lemma getNextRouteTarget_stays_on_route_witness :
  getNextRouteTarget lostVehicle 7 calmWorld
  = (Returned (Some (mkTarget 2 0 2)), calmWorld).
Proof.
  destruct (getNextRouteTarget_stays_on_route lostVehicle threePoints 7 calmWorld
              eq_refl ltac:(discriminate)) as (Hin & _).
  destruct (Hin ltac:(lia)) as (p & Hp & _ & Hrun).
  injection Hp as <-. exact Hrun.
Defined.

Lemma updateVehicleRoute_unknown_id_witness :
  VehicleStore.updateVehicleRoute "job-42" threePoints sampleStore = sampleStore.
Proof.
  apply (updateVehicleRoute_unknown_id "job-42" threePoints sampleStore).
  repeat constructor; discriminate.
Defined.

Lemma add_then_remove_witness :
  VehicleStore.removeVehicle "v6"
    (VehicleStore.addVehicle parkedVehicle sampleStore)
  = sampleStore.
Proof.
  apply (add_then_remove parkedVehicle sampleStore).
  repeat constructor; discriminate.
Defined.


Lemma createInitialVehicles_fleet_witness :
  exists vs w',
    createInitialVehicles calmWorld = (Returned vs, w') /\
    length vs = 12%nat /\
    map id vs
    = ["v1"; "v2"; "v3"; "v4"; "v5"; "v6";
       "v7"; "v8"; "v9"; "v10"; "v11"; "v12"]%string /\
    map driverName vs = driverNames /\
    Forall (freshVehicle 0) vs.
Proof.
  apply (createInitialVehicles_fleet calmWorld). exact calmWorld_fair.
Defined.

Lemma histories_stay_chronological_witness :
  Forall (fun v => hasDestination v /\ chronological (0 + 4000 * 3) v)
    (fst (runSimulation calculateNewPosition_flat
            calculateVehicleStatus_schedule 3 sampleFleet calmWorld)).
Proof.
  apply (histories_stay_chronological calculateNewPosition_flat
           calculateVehicleStatus_schedule 3 sampleFleet calmWorld).
  repeat constructor; discriminate.
Defined.

Lemma initial_fleet_simulation_witness :
  fair calmWorld /\
  exists vs w1 vs' w' vs'' w'',
    createInitialVehicles calmWorld = (Returned vs, w1) /\
    runSimulation calculateNewPosition_flat calculateVehicleStatus_schedule
      500 vs w1 = (vs', w') /\
    simulateAllVehicles calculateNewPosition_flat
      calculateVehicleStatus_schedule vs' (elapse 4000 w')
    = (Returned vs'', w'') /\
    runSimulation calculateNewPosition_flat calculateVehicleStatus_schedule
      501 vs w1 = (vs'', w'') /\
    clock w' = 2000000%Z /\
    length vs' = 12%nat /\
    Forall (fun v => exists entries,
                       statusHistory v = Some entries /\
                       length entries = 450%nat) vs'.
Proof.
  split; [exact calmWorld_fair|].
  destruct (initial_fleet_simulation calculateNewPosition_flat
              calculateVehicleStatus_schedule 500 calmWorld calmWorld_fair)
    as (vs & w1 & vs' & w' & vs'' & w'' & Hcreate & Hticks & Hlast & Hnext
        & Hclock & Hids & _ & Hhist & _).
  exists vs, w1, vs', w', vs'', w''.
  split; [exact Hcreate|]. split; [exact Hticks|]. split; [exact Hlast|].
  split; [exact Hnext|]. split; [exact Hclock|].
  split; [rewrite <- (length_map id), Hids; reflexivity|exact Hhist].
Defined.

Lemma sequential_use_keeps_one_interval_witness :
  let t' := Timer.run (Timer.sequential [true; false; true]) idleTimers in
  (length (Timer.activeIntervals t') <= 1)%nat /\
  exists h, Timer.activeIntervals t' = [h] /\
            Timer.simulationInterval t' = Some h.
Proof.
  apply (sequential_use_keeps_one_interval [true; false; true] idleTimers).
  split; reflexivity.
Defined.

Lemma lost_interval_never_cleared_witness :
  let t := Timer.mkTimers (Some 2%nat) [2%nat; 1%nat] 3 in
  let t' := Timer.run [Timer.StopCalled; Timer.StartCalled; Timer.StartResumed;
                       Timer.StopCalled] t in
  In 1%nat (Timer.activeIntervals t') /\
  Timer.simulationInterval t' <> Some 1%nat /\
  Timer.wellFormed t'.
Proof.
  apply (lost_interval_never_cleared
           [Timer.StopCalled; Timer.StartCalled; Timer.StartResumed;
            Timer.StopCalled]
           (Timer.mkTimers (Some 2%nat) [2%nat; 1%nat] 3) 1%nat).
  - split; cbn; [repeat constructor; lia|lia].
  - cbn. right. left. reflexivity.
  - cbn. discriminate.
Defined.

Lemma overlapping_starts_lose_an_interval_witness :
  let overlapped :=
    Timer.run [Timer.StartCalled; Timer.StartCalled;
               Timer.StartResumed; Timer.StartResumed] idleTimers in
  Timer.activeIntervals overlapped = [2%nat; 1%nat] /\
  Timer.simulationInterval overlapped = Some 2%nat /\
  In 1%nat
    (Timer.activeIntervals
       (Timer.run [Timer.StopCalled; Timer.StartCalled; Timer.StartResumed]
          overlapped)).
Proof.
  apply (overlapping_starts_lose_an_interval idleTimers
           [Timer.StartCalled; Timer.StartResumed]).
  split; reflexivity.
Defined.

Lemma calculateDistance_metric_witness :
  0 <= haversine (mkPosition 12.97 77.59) (mkPosition 12.98 77.60) <= 1 /\
  calculateDistance (mkPosition 12.97 77.59) (mkPosition 12.97 77.59) = 0 /\
  calculateDistance (mkPosition 12.97 77.59) (mkPosition 12.98 77.60)
  = calculateDistance (mkPosition 12.98 77.60) (mkPosition 12.97 77.59) /\
  0 <= calculateDistance (mkPosition 12.97 77.59) (mkPosition 12.98 77.60)
    <= 6371 * PI.
Proof.
  apply (calculateDistance_metric (mkPosition 12.97 77.59)
           (mkPosition 12.98 77.60));
    unfold validLatitude; cbn [lat]; lra.
Defined.

(** ** Where the update heads *)

Section Heading.

Variable calculateNewPosition : Position -> R -> R -> Position.
Variable calculateVehicleStatus : Z -> Vehicle -> VehicleStatus.

Lemma update_after_move vehicle d w s w1 p h w2 :
  destination vehicle = Some d ->
  rawSpeed vehicle w = (Returned s, w1) ->
  s <= 98 ->
  moveTowardTarget calculateNewPosition vehicle (distanceKm vehicle) w1
  = (Returned (p, h), w2) ->
  exists v' w',
    simulateGPSUpdate calculateNewPosition calculateVehicleStatus vehicle w
    = (Returned v', w') /\
    console w' = console w2 /\
    heading v' = normalizeHeading h /\
    position v'
    = (if flatEarthMetres (dest_lat d) (dest_lng d) (lat p) (lng p) <? 100
       then mkPosition (dest_lat d) (dest_lng d) else p).
Proof.
  intros Hd Hraw Hs Hmove.
  rewrite (simulateGPSUpdate_unfolded calculateNewPosition
             calculateVehicleStatus vehicle d w s w1 p h w2 Hd Hraw Hs Hmove).
  rewrite driftCargoTemperature_eval.
  cbn [cargoTemperature set_status assembled].
  destruct (cargoTemperature vehicle) as [t|];
    (eexists _, _; split; [reflexivity|]; repeat split).
Qed.

(** X5: A vehicle whose route is missing or has at most 2 points travels in a
    straight line: the update logs that there is no route, stores the
    normalised bearing to the destination as heading, and moves the vehicle
    along that bearing by the distance of the tick unless that brings it
    within 100 metres of the destination, where it is put. *)
Theorem update_without_route_goes_straight vehicle d w :
  destination vehicle = Some d ->
  hasRoute vehicle = false ->
  exists v' w',
    simulateGPSUpdate calculateNewPosition calculateVehicleStatus vehicle w
    = (Returned v', w') /\
    let bearing := bearingTo (position vehicle) (dest_lat d) (dest_lng d) in
    let p := calculateNewPosition (position vehicle) (distanceKm vehicle) bearing in
    heading v' = normalizeHeading bearing /\
    position v'
    = (if flatEarthMetres (dest_lat d) (dest_lng d) (lat p) (lng p) <? 100
       then mkPosition (dest_lat d) (dest_lng d) else p) /\
    In (NoRoute (id vehicle) (routeLength vehicle)) (console w').
Proof.
  intros Hd Hhas.
  destruct (rawSpeed_returns vehicle w) as (s & w1 & Hraw & Hs & _).
  pose proof (moveTowardTarget_direct calculateNewPosition vehicle d
                (distanceKm vehicle) w1 Hhas Hd) as Hmove.
  cbv zeta in Hmove.
  destruct (update_after_move vehicle d w s w1 _ _ _ Hd Hraw (proj2 Hs) Hmove)
    as (v' & w' & Hrun & Hlog & Hheading & Hpos).
  exists v', w'. split; [exact Hrun|]. cbv zeta.
  split; [exact Hheading|]. split; [exact Hpos|].
  rewrite Hlog. cbn [console]. apply in_or_app. right. left. reflexivity.
Qed.

(** X4: A vehicle with a route of more than 2 points follows it: the update
    stores the normalised bearing to the waypoint right after the closest
    one (the last waypoint when the closest is the last) as heading, and
    moves the vehicle along that bearing by the distance of the tick
    unless that brings it within 100 metres of the destination. *)
Theorem update_with_route_follows_it vehicle d w :
  destination vehicle = Some d ->
  hasRoute vehicle = true ->
  exists points closest target v' w',
    route vehicle = Some points /\
    nth_error points
      (Z.to_nat (findClosestRoutePoint (position vehicle) (Some points)))
    = Some closest /\
    (forall q, In q points ->
       distanceFrom (position vehicle) closest
       <= distanceFrom (position vehicle) q) /\
    nth_error points
      (Z.to_nat (Z.min (findClosestRoutePoint (position vehicle) (Some points) + 1)
                       (length_of points - 1)))
    = Some target /\
    simulateGPSUpdate calculateNewPosition calculateVehicleStatus vehicle w
    = (Returned v', w') /\
    let bearing := bearingTo (position vehicle) (lat target) (lng target) in
    let p := calculateNewPosition (position vehicle) (distanceKm vehicle) bearing in
    heading v' = normalizeHeading bearing /\
    position v'
    = (if flatEarthMetres (dest_lat d) (dest_lng d) (lat p) (lng p) <? 100
       then mkPosition (dest_lat d) (dest_lng d) else p).
Proof.
  intros Hd Hhas.
  destruct (rawSpeed_returns vehicle w) as (s & w1 & Hraw & Hs & _).
  destruct (moveTowardTarget_with_route calculateNewPosition vehicle
              (distanceKm vehicle) w1 Hhas)
    as (points & target & Hroute & Htarget & Hmove).
  cbv zeta in Hmove.
  destruct (hasRoute_true _ Hhas) as (points' & Hroute' & Hlen).
  rewrite Hroute in Hroute'. injection Hroute' as <-.
  assert (Hne : points <> []).
  { intros ->. unfold length_of in Hlen. cbn in Hlen. lia. }
  destruct (findClosestRoutePoint_closest (position vehicle) points Hne)
    as (closest & Hclosest & Hmin).
  destruct (update_after_move vehicle d w s w1 _ _ _ Hd Hraw (proj2 Hs) Hmove)
    as (v' & w' & Hrun & _ & Hheading & Hpos).
  exists points, closest, target, v', w'.
  split; [exact Hroute|]. split; [exact Hclosest|]. split; [exact Hmin|].
  split; [exact Htarget|]. split; [exact Hrun|]. cbv zeta.
  split; [exact Hheading|exact Hpos].
Qed.

End Heading.

Lemma update_without_route_goes_straight_witness :
  exists v' w',
    simulateGPSUpdate calculateNewPosition_flat calculateVehicleStatus_schedule
      scenarioVehicle calmWorld = (Returned v', w') /\
    let bearing := bearingTo (mkPosition 12.97 77.59) 12.98 77.60 in
    let p := calculateNewPosition_flat (mkPosition 12.97 77.59)
               (distanceKm scenarioVehicle) bearing in
    heading v' = normalizeHeading bearing /\
    position v'
    = (if flatEarthMetres 12.98 77.60 (lat p) (lng p) <? 100
       then mkPosition 12.98 77.60 else p) /\
    In (NoRoute "v1" 0) (console w').
Proof.
  apply (update_without_route_goes_straight calculateNewPosition_flat
           calculateVehicleStatus_schedule scenarioVehicle mgRoad calmWorld);
    reflexivity.
Defined.

Lemma update_with_route_follows_it_witness :
  exists v' w',
    simulateGPSUpdate calculateNewPosition_flat calculateVehicleStatus_schedule
      endOfRouteVehicle calmWorld = (Returned v', w') /\
    heading v' = 0.
Proof.
  destruct (update_with_route_follows_it calculateNewPosition_flat
              calculateVehicleStatus_schedule endOfRouteVehicle
              (mkDestination 3 1 "Whitefield, Bangalore, Karnataka") calmWorld
              eq_refl eq_refl)
    as (points & closest & target & v' & w' & Hroute & _ & _ & Htarget & Hrun
        & Hheading & _).
  exists v', w'. split; [exact Hrun|].
  injection Hroute as <-.
  change (position endOfRouteVehicle) with (mkPosition 2 0) in Htarget, Hheading.
  rewrite closest_at_end_of_route in Htarget. injection Htarget as <-.
  rewrite Hheading.
  pose proof (bearing_to_self (mkPosition 2 0)) as Hself.
  cbn [lat lng] in *. rewrite Hself.
  apply normalizeHeading_small. lra.
Defined.

(** ** The speed limit that is never reported *)

Lemma rawSpeed_clamps_perturbed vehicle w :
  rawSpeed vehicle w
  = (s <- perturbedSpeed vehicle ;; ret (Math_max 5 (Math_min 98 s))) w.
Proof.
  unfold rawSpeed, perturbedSpeed, bind, Math_random, console_log, ret.
  cbn [draws cursor clock console].
  destruct (_ <? 0.02); reflexivity.
Qed.

Lemma perturbedSpeed_calm (v : Vehicle) (w : World) :
  0.05 <= draws w (1 + cursor w) ->
  0.03 <= draws w (2 + cursor w) ->
  0.02 <= draws w (3 + cursor w) ->
  perturbedSpeed v w
  = (Returned (currentSpeed v * (1 + (draws w (cursor w) - 0.5) * 2 * 0.05)),
     mkWorld (draws w) (4 + cursor w) (clock w) (console w)).
Proof.
  intros H2 H3 H4.
  apply ltb_false in H2, H3, H4.
  unfold perturbedSpeed, bind, Math_random, console_log, ret.
  cbn [draws cursor clock console plus] in *.
  rewrite H2, H3, H4. reflexivity.
Qed.

Lemma flatEarthMetres_ge_lat to_lat to_lng from_lat from_lng :
  (to_lat - from_lat) * 111000
  <= flatEarthMetres to_lat to_lng from_lat from_lng.
Proof.
  unfold flatEarthMetres, Math_sqrt, Math_pow2.
  set (x := (to_lat - from_lat) * 111000).
  set (y := (to_lng - from_lng) * 111000).
  apply Rle_trans with (Rabs x); [apply Rle_abs|].
  rewrite <- sqrt_Rsqr_abs. apply sqrt_le_1_alt. unfold Rsqr. nra.
Qed.

(** C2 at [hastyVehicle] (97 km/h) with a jitter of +4.9%: the speed
    computed before any clamp is 101.753 km/h, above the limit of 100, but
    it is clamped to 98 before the speed-limit check, which therefore sees
    98, warns of nothing and caps nothing.  The update writes no violation
    record and stores 98, not 100. *)
Theorem speeding_goes_unreported :
  let checked := mkWorld (draws gustWorld) 4 0 [] in
  perturbedSpeed hastyVehicle gustWorld = (Returned 101.753, checked) /\
  SPEED_LIMIT < 101.753 /\
  rawSpeed hastyVehicle gustWorld = (Returned 98, checked) /\
  speedLimitCheck hastyVehicle 98 checked = (Returned 98, checked) /\
  (forall calculateNewPosition calculateVehicleStatus,
   exists v' w',
     simulateGPSUpdate calculateNewPosition calculateVehicleStatus
       hastyVehicle gustWorld = (Returned v', w') /\
     console w' = [NoRoute "v7" 0] /\
     currentSpeed v' <= 98) /\
  exists v' w',
    simulateGPSUpdate calculateNewPosition_flat calculateVehicleStatus_schedule
      hastyVehicle gustWorld = (Returned v', w') /\
    console w' = [NoRoute "v7" 0] /\
    violations (console w') = [] /\
    currentSpeed v' = 98.
Proof.
  cbv zeta.
  assert (Hperturbed :
    perturbedSpeed hastyVehicle gustWorld
    = (Returned 101.753, mkWorld (draws gustWorld) 4 0 [])).
  { rewrite perturbedSpeed_calm by (cbn; lra).
    cbn [currentSpeed hastyVehicle draws cursor clock console gustWorld
         Nat.eqb plus].
    f_equal. f_equal. lra. }
  assert (Hraw :
    rawSpeed hastyVehicle gustWorld
    = (Returned 98, mkWorld (draws gustWorld) 4 0 [])).
  { rewrite rawSpeed_clamps_perturbed. unfold bind. rewrite Hperturbed.
    unfold ret. f_equal. f_equal.
    unfold Math_max, Math_min, Rmax, Rmin. repeat destruct Rle_dec; lra. }
  assert (Hrun : forall cnp cvs,
    exists v' w',
      simulateGPSUpdate cnp cvs hastyVehicle gustWorld = (Returned v', w') /\
      console w' = [NoRoute "v7" 0] /\
      currentSpeed v'
      = arrivalSpeed
          (flatEarthMetres 12.98 77.60
             (lat (cnp (mkPosition 12.97 77.59) (distanceKm hastyVehicle)
                     (bearingTo (mkPosition 12.97 77.59) 12.98 77.60)))
             (lng (cnp (mkPosition 12.97 77.59) (distanceKm hastyVehicle)
                     (bearingTo (mkPosition 12.97 77.59) 12.98 77.60))))
          98).
  { intros cnp cvs.
    pose proof (moveTowardTarget_direct cnp hastyVehicle mgRoad
                  (distanceKm hastyVehicle)
                  (mkWorld (draws gustWorld) 4 0 []) eq_refl eq_refl) as Hmove.
    cbv zeta in Hmove.
    rewrite (simulateGPSUpdate_unfolded cnp cvs hastyVehicle mgRoad gustWorld
               98 _ _ _ _ eq_refl Hraw ltac:(lra) Hmove).
    rewrite driftCargoTemperature_eval.
    eexists _, _. split; [reflexivity|]. split; reflexivity. }
  split; [exact Hperturbed|]. split; [unfold SPEED_LIMIT; lra|].
  split; [exact Hraw|].
  split; [apply speedLimitCheck_below; lra|].
  split.
  - intros cnp cvs. destruct (Hrun cnp cvs) as (v' & w' & Hv' & Hlog & Hspeed).
    exists v', w'. split; [exact Hv'|]. split; [exact Hlog|].
    rewrite Hspeed.
    match goal with
    | |- arrivalSpeed ?dist 98 <= 98 =>
        pose proof (arrivalSpeed_bounds dist 98 ltac:(lra)); lra
    end.
  - destruct (Hrun calculateNewPosition_flat calculateVehicleStatus_schedule)
      as (v' & w' & Hv' & Hlog & Hspeed).
    exists v', w'. split; [exact Hv'|]. split; [exact Hlog|].
    split; [rewrite Hlog; reflexivity|].
    rewrite Hspeed.
    match goal with
    | |- arrivalSpeed ?dist 98 = 98 => assert (Hfar : 500 <= dist)
    end.
    { eapply Rle_trans; [|apply flatEarthMetres_ge_lat].
      unfold calculateNewPosition_flat, distanceKm.
      cbn [lat lng currentSpeed hastyVehicle].
      match goal with
      | |- context [cos ?x] => pose proof (COS_bound x) as Hcos
      end.
      nra. }
    unfold arrivalSpeed.
    rewrite (proj2 (ltb_false _ 500)) by exact Hfar.
    rewrite (proj2 (ltb_false _ 100)) by lra. reflexivity.
Qed.
